(** * ESP32 Air Drums: MIDI packet parser and drum playback engine

    A shallow embedding of [src/midi_handler.py] (class [MidiHandler]) and of
    the state-carrying part of [src/audio_engine.py] (class [AudioEngine]),
    with the properties of both that the specification states; and of the
    code around them: the message builders and the patterns of the sender
    scripts [caravan_midi.py] and [send_fake_midi.py], the wiring of
    [src/main.py], and the tables and names of the display [src/ui.py].

    Conventions.
    - A Python [bytes] object is a [list byte]; indexing it yields the
      integer value of the byte, and indexing out of range raises
      [IndexError].
    - The callbacks registered with the handler are opaque to the handler:
      a run of the handler is described by the sequence of callback
      invocations it performs, in order. They are taken not to raise.
    - Python dictionaries are finite maps ([gmap]).
    - The value [velocity / 127.0] that [note_on] passes to the mixer is kept
      as the exact quotient in [Q]; the waveforms that the synthesis recipes
      compute in floating point are inputs of the model. *)

From Stdlib Require Import ZArith QArith.
From Stdlib.Strings Require Import Byte Ascii.
From stdpp Require Import gmap strings list fin_maps pretty.

Local Open Scope Z_scope.

(** ** Python values used by the handler *)

Module Py.

Inductive exn : Type :=
| IndexError.

(** The result of evaluating a piece of Python code. *)
Inductive result (A : Type) : Type :=
| Ok (a : A)
| Raise (e : exn).
Arguments Ok {A} a.
Arguments Raise {A} e.

#[global] Instance result_ret : MRet result := @Ok.

#[global] Instance result_bind : MBind result := fun A B k r =>
  match r with
  | Ok a => k a
  | Raise e => Raise e
  end.

#[global] Instance result_fmap : FMap result := fun A B f r =>
  match r with
  | Ok a => Ok (f a)
  | Raise e => Raise e
  end.

(** The integer a byte denotes, in [0, 255]. *)
Definition byte_val (b : byte) : Z := Z.of_N (Byte.to_N b).

(** [data[i]] for [data : bytes]. *)
Definition getitem (data : list byte) (i : nat) : result Z :=
  match data !! i with
  | Some b => Ok (byte_val b)
  | None => Raise IndexError
  end.

End Py.

(** ** [midi_handler.py] *)

Module MidiHandler.
Import Py.

(** One invocation of a registered callback. *)
Inductive Call : Type :=
| note_on_cb (note velocity : Z)
| note_off_cb (note : Z)
| control_change_cb (cc value : Z).

(** The integer arguments of a callback invocation. *)
Definition call_args (c : Call) : list Z :=
  match c with
  | note_on_cb n v => [n; v]
  | note_off_cb n => [n]
  | control_change_cb n v => [n; v]
  end.

(** All integer arguments of all invocations fit in seven bits. *)
Definition seven_bit_fields (calls : list Call) : Prop :=
  Forall (fun c => Forall (fun x => 0 <= x <= 127) (call_args c)) calls.

(** A message of the optional [mido] library, as far as the handler reads
    it. *)
Record MidoMessage : Type := {
  msg_type : string;
  msg_note : Z;
  msg_velocity : Z;
  msg_control : Z;
  msg_value : Z
}.

(** [mido.parse_all], when the library is importable: it either raises or
    returns the list of parsed messages. *)
Definition MidoParser : Type := list byte -> option (list MidoMessage).

Section Handler.

(** [self.control_change_cb] is optional: [has_cc] tells whether one is
    registered. *)
Variable has_cc : bool.

(** [_handle_mido_message]. *)
Definition _handle_mido_message (msg : MidoMessage) : list Call :=
  if String.eqb (msg_type msg) "note_on" then
    if 0 <? msg_velocity msg
    then [note_on_cb (msg_note msg) (msg_velocity msg)]
    else [note_off_cb (msg_note msg)]
  else if String.eqb (msg_type msg) "note_off" then
    [note_off_cb (msg_note msg)]
  else if String.eqb (msg_type msg) "control_change" && has_cc then
    [control_change_cb (msg_control msg) (msg_value msg)]
  else [].

(** [typ in (0x80, 0x90, 0xB0)]. *)
Definition supported (typ : Z) : bool :=
  (typ =? 0x80) || (typ =? 0x90) || (typ =? 0xB0).

(** The callbacks invoked for one complete three-byte message, lines
    51-59 of the fallback parser. *)
Definition dispatch (typ a b : Z) : list Call :=
  if typ =? 0x90 then
    if 0 <? b then [note_on_cb a b] else [note_off_cb a]
  else if typ =? 0x80 then
    [note_off_cb a]
  else if (typ =? 0xB0) && has_cc then
    [control_change_cb a b]
  else [].

(** One iteration of the [while] loop of the fallback parser, entered
    with cursor [i]: the new cursor and the callbacks invoked. *)
Definition loop_body (data : list byte) (i : nat)
  : result (nat * list Call) :=
  status ← getitem data i;
  if (0x80 <=? status) && (status <=? 0xEF) then
    let typ := Z.land status 0xF0 in
    if supported typ then
      if (i + 2 <? length data)%nat then
        let ch := Z.land status 0x0F in
        a ← getitem data (i + 1);
        b ← getitem data (i + 2);
        Ok ((i + 3)%nat, dispatch typ a b)
      else Ok ((i + 1)%nat, [])
    else Ok ((i + 1)%nat, [])
  else Ok ((i + 1)%nat, []).

(** The loop [while i < len(data)], run for at most [fuel] iterations.
    [None] means that the iterations allowed did not suffice. *)
Fixpoint while_loop (fuel : nat) (data : list byte) (i : nat)
  : option (result (list Call)) :=
  if (i <? length data)%nat then
    match fuel with
    | O => None
    | S fuel' =>
        match loop_body data i with
        | Raise e => Some (Raise e)
        | Ok (i', calls) =>
            match while_loop fuel' data i' with
            | Some r => Some (app calls <$> r)
            | None => None
            end
        end
    end
  else Some (Ok []).

(** The fallback parser: the loop started at cursor 0. One iteration per
    byte is always enough. *)
Definition fallback_parser (data : list byte)
  : option (result (list Call)) :=
  while_loop (length data) data 0.

(** [handle_packet]. [mido] is [None] when the library could not be
    imported. An exception of [mido.parse_all] leads to the fallback
    parser. *)
Definition handle_packet (mido : option MidoParser) (data : list byte)
  : option (result (list Call)) :=
  match mido with
  | Some parse_all =>
      match parse_all data with
      | Some msgs => Some (Ok (concat (_handle_mido_message <$> msgs)))
      | None => fallback_parser data
      end
  | None => fallback_parser data
  end.

(** The callbacks the loop performs on the bytes that remain after the
    cursor, by recursion on these bytes. *)
Fixpoint scan (rest : list byte) : list Call :=
  match rest with
  | [] => []
  | s :: rest' =>
      let status := byte_val s in
      if (0x80 <=? status) && (status <=? 0xEF)
         && supported (Z.land status 0xF0) then
        match rest' with
        | a :: b :: rest'' =>
            dispatch (Z.land status 0xF0) (byte_val a) (byte_val b)
              ++ scan rest''
        | _ => scan rest'
        end
      else scan rest'
  end.

End Handler.

End MidiHandler.

(** ** [audio_engine.py] *)

Module AudioEngine.

(** A [pygame.mixer.Channel], identified by its number in the mixer. *)
Abbreviation Channel := nat (only parsing).

(** A [pygame.mixer.Sound]: its stereo frames of 16-bit samples and its
    playback gain. *)
Record Sound : Type := {
  frames : list (Z * Z);
  volume : Q
}.

(** [pygame.sndarray.make_sound]: a new sound plays at full gain. *)
Definition make_sound (stereo : list (Z * Z)) : Sound :=
  {| frames := stereo; volume := 1 |}.

(** [Sound.set_volume(value)]: pygame hands [(int)(value * 128)], the
    product cut off towards zero, to the mixer, which ignores a negative
    level, takes a level above 128 for 128, and stores it; the gain of the
    sound, as [get_volume] returns it, is the stored level over 128. (The
    value reaches pygame as a single-precision float; for the quotients
    [velocity / 127.0] of integers below [2 ^ 30] in absolute value the
    level is the one computed here.) *)
Definition set_volume (value : Q) (s : Sound) : Sound :=
  let level := Z.quot (Qnum value * 128) (Z.pos (Qden value)) in
  if 0 <=? level then
    {| frames := frames s; volume := Z.min level 128 # 128 |}
  else s.

(** [np.column_stack((audio, audio))]. *)
Definition column_stack (left right : list Z) : list (Z * Z) :=
  zip left right.

(** The calls the engine makes to the mixer, by the key of the sound or by
    the channel they act on. *)
Inductive MixerCall : Type :=
| call_set_volume (drum_type : string) (value : Q)
| call_play (drum_type : string)
| call_fadeout (channel : Channel) (ms : Z).

(** The [int16] array [audio] each recipe computes before it is stacked to
    stereo. The recipes work in floating point on pseudo-random noise;
    their outcome is taken as given. *)
Record Synthesis : Type := {
  kick_audio : list Z;
  snare_audio : list Z;
  hihat_closed_audio : list Z;
  hihat_open_audio : list Z;
  tom_audio : Z -> list Z;
  crash_audio : list Z;
  ride_audio : list Z
}.

(** A small outcome of the recipes, for examples. *)
Definition example_synthesis : Synthesis :=
  {| kick_audio := [29490; -12000; 0];
     snare_audio := [27851; -3];
     hihat_closed_audio := [19660];
     hihat_open_audio := [-16383; 7];
     tom_audio := fun base_freq => [26213; base_freq];
     crash_audio := [19660; 1; -1];
     ride_audio := [-21298; 5] |}.

(** The attributes of an [AudioEngine] instance. *)
Record engine : Type := {
  sample_rate : Z;
  _active : gmap Z Channel;
  _drum_samples : gmap string Sound;
  _note_map : gmap Z string
}.

Section Construction.

Variable synth : Synthesis.

Definition _create_kick : Sound :=
  make_sound (column_stack (kick_audio synth) (kick_audio synth)).
Definition _create_snare : Sound :=
  make_sound (column_stack (snare_audio synth) (snare_audio synth)).
Definition _create_hihat_closed : Sound :=
  make_sound
    (column_stack (hihat_closed_audio synth) (hihat_closed_audio synth)).
Definition _create_hihat_open : Sound :=
  make_sound
    (column_stack (hihat_open_audio synth) (hihat_open_audio synth)).
Definition _create_tom (base_freq : Z) : Sound :=
  make_sound
    (column_stack (tom_audio synth base_freq) (tom_audio synth base_freq)).
Definition _create_crash : Sound :=
  make_sound (column_stack (crash_audio synth) (crash_audio synth)).
Definition _create_ride : Sound :=
  make_sound (column_stack (ride_audio synth) (ride_audio synth)).

(** [_generate_drum_samples], on the empty dictionary of [__init__]. *)
Definition _generate_drum_samples : gmap string Sound :=
  <["ride" := _create_ride]>
  (<["crash" := _create_crash]>
  (<["tom_high" := _create_tom 250]>
  (<["tom_mid" := _create_tom 180]>
  (<["tom_low" := _create_tom 120]>
  (<["hihat_open" := _create_hihat_open]>
  (<["hihat_closed" := _create_hihat_closed]>
  (<["snare" := _create_snare]>
  (<["kick" := _create_kick]> ∅)))))))).

(** The dictionary literal of [__init__], in the order it is written. *)
Definition note_map_items : list (Z * string) :=
  [ (35, "kick"); (36, "kick"); (38, "snare"); (40, "snare");
    (42, "hihat_closed"); (44, "hihat_closed"); (46, "hihat_open");
    (47, "tom_low"); (48, "tom_mid"); (50, "tom_high"); (49, "crash");
    (51, "ride"); (52, "crash"); (53, "ride"); (41, "tom_low");
    (43, "tom_low"); (45, "tom_mid") ]%string.

(** [__init__]. *)
Definition __init__ (rate : Z) : engine :=
  {| sample_rate := rate;
     _active := ∅;
     _drum_samples := _generate_drum_samples;
     _note_map :=
       foldl (fun m kv => <[kv.1 := kv.2]> m) ∅ note_map_items |}.

End Construction.

(** [self._note_map.get(note, "snare")]. *)
Definition drum_type (e : engine) (note : Z) : string :=
  default "snare"%string (_note_map e !! note).

(** [note_on]. [played] is what [sound.play()] returns: a channel, or
    nothing when the mixer has none free. The result is the engine
    afterwards and the mixer calls made. *)
Definition note_on (note velocity : Z) (played : option Channel)
    (e : engine) : engine * list MixerCall :=
  let drum := drum_type e note in
  match _drum_samples e !! drum with
  | None => (e, [])
  | Some sound =>
      let volume := velocity # 127 in
      let samples' := <[drum := set_volume volume sound]> (_drum_samples e) in
      let calls := [call_set_volume drum volume; call_play drum] in
      match played with
      | Some channel =>
          ({| sample_rate := sample_rate e;
              _active := <[note := channel]> (_active e);
              _drum_samples := samples';
              _note_map := _note_map e |}, calls)
      | None =>
          ({| sample_rate := sample_rate e;
              _active := _active e;
              _drum_samples := samples';
              _note_map := _note_map e |}, calls)
      end
  end.

(** [note_off]. An exception of [channel.fadeout] is swallowed. *)
Definition note_off (note : Z) (e : engine) : engine * list MixerCall :=
  let channel := _active e !! note in
  let e' := {| sample_rate := sample_rate e;
               _active := delete note (_active e);
               _drum_samples := _drum_samples e;
               _note_map := _note_map e |} in
  match channel with
  | Some channel => (e', [call_fadeout channel 100])
  | None => (e', [])
  end.

(** The calls a client makes on an engine. *)
Inductive op : Type :=
| NoteOn (note velocity : Z) (played : option Channel)
| NoteOff (note : Z).

Definition step (e : engine) (o : op) : engine * list MixerCall :=
  match o with
  | NoteOn note velocity played => note_on note velocity played e
  | NoteOff note => note_off note e
  end.

(** A sequence of calls, first to last. *)
Definition run (ops : list op) (e : engine) : engine :=
  foldl (fun e o => (step e o).1) e ops.

(** The keys of the [_note_map] literal, in increasing order, and the
    drum types they map to. *)
Definition mapped_notes : list Z :=
  [35; 36; 38; 40; 41; 42; 43; 44; 45; 46; 47; 48; 49; 50; 51; 52; 53].

Definition mapped_drum_types : list string :=
  [ "kick"; "kick"; "snare"; "snare"; "tom_low"; "hihat_closed"; "tom_low";
    "hihat_closed"; "tom_mid"; "hihat_open"; "tom_low"; "tom_mid"; "crash";
    "tom_high"; "ride"; "crash"; "ride" ]%string.

(** The keys of [_drum_samples]. *)
Definition drum_types : list string :=
  [ "kick"; "snare"; "hihat_closed"; "hihat_open"; "tom_low"; "tom_mid";
    "tom_high"; "crash"; "ride" ]%string.

End AudioEngine.

(** ** [caravan_midi.py] and [send_fake_midi.py]: building messages *)

Module Sender.

(** [bytes(ints)]: every integer has to be in [range(256)], else
    [ValueError] ([None]). *)
Definition byte_of_int (x : Z) : option byte :=
  if (0 <=? x) && (x <? 256) then Byte.of_N (Z.to_N x) else None.

Definition bytes (ints : list Z) : option (list byte) :=
  mapM byte_of_int ints.

(** [make_note_on], the same in both scripts. *)
Definition make_note_on (channel note velocity : Z) : option (list byte) :=
  let status := Z.lor 0x90 (Z.land channel 0x0F) in
  bytes [status; Z.land note 0x7F; Z.land velocity 0x7F].

(** [make_note_off], the same in both scripts; [velocity] defaults to 64. *)
Definition make_note_off (channel note velocity : Z) : option (list byte) :=
  let status := Z.lor 0x80 (Z.land channel 0x0F) in
  bytes [status; Z.land note 0x7F; Z.land velocity 0x7F].

End Sender.

(** ** [midi_handler.py] with callbacks that may raise *)

Module Raising.
Import Py MidiHandler.

(** What a callback may raise, as [except Exception] tells it apart: an
    instance of [Exception], or another [BaseException] such as
    [KeyboardInterrupt] or [SystemExit]. *)
Inductive raised : Type :=
| exception
| base_exception.

Section Handler.

Variable has_cc : bool.

(** The registered callbacks, as far as the handler can tell: whether the
    invocation [c], the [k]-th one (from 0) of this call of [handle_packet],
    returns ([None]) or what it raises. *)
Variable raises : nat -> Call -> option raised.

(** The invocations of one message or of one iteration, after the
    invocations [done]: all invocations so far, and what the last one
    raised, if it did. *)
Fixpoint invoke (calls done : list Call) : list Call * option raised :=
  match calls with
  | [] => (done, None)
  | c :: calls' =>
      match raises (length done) c with
      | Some x => (done ++ [c], Some x)
      | None => invoke calls' (done ++ [c])
      end
  end.

(** [for msg in msgs: self._handle_mido_message(msg)]. *)
Fixpoint mido_loop (msgs : list MidoMessage) (done : list Call)
  : list Call * option raised :=
  match msgs with
  | [] => (done, None)
  | msg :: msgs' =>
      let r := invoke (_handle_mido_message has_cc msg) done in
      match r.2 with
      | Some _ => r
      | None => mido_loop msgs' r.1
      end
  end.

(** The fallback loop: whatever a callback raises leaves it. An
    [IndexError], an [Exception], would leave it as well. *)
Fixpoint while_loop (fuel : nat) (data : list byte) (i : nat)
    (done : list Call) : option (list Call * option raised) :=
  if (i <? length data)%nat then
    match fuel with
    | O => None
    | S fuel' =>
        match loop_body has_cc data i with
        | Raise _ => Some (done, Some exception)
        | Ok (i', calls) =>
            let r := invoke calls done in
            match r.2 with
            | Some _ => Some r
            | None => while_loop fuel' data i' r.1
            end
        end
    end
  else Some (done, None).

(** [handle_packet]: all callback invocations, in order, and what leaves
    [handle_packet], if anything. In the [mido] branch an [Exception], of
    [mido.parse_all] or of a callback, is caught and followed by the
    fallback loop over the whole packet; anything else a callback raises
    there leaves [handle_packet]. *)
Definition handle_packet (mido : option MidoParser) (data : list byte)
  : option (list Call * option raised) :=
  match mido with
  | Some parse_all =>
      match parse_all data with
      | Some msgs =>
          let r := mido_loop msgs [] in
          match r.2 with
          | None => Some r
          | Some exception => while_loop (length data) data 0 r.1
          | Some base_exception => Some r
          end
      | None => while_loop (length data) data 0 []
      end
  | None => while_loop (length data) data 0 []
  end.

End Handler.

End Raising.

(** ** The sender scripts *)

Module Script.
Import Sender.

Inductive exn : Type :=
| ZeroDivisionError
| ValueError.

(** What a script does to the outside: a datagram handed to the socket, a
    pause. Console output is left out. *)
Inductive Event : Type :=
| sendto (data : list byte)
| sleep (seconds : Q).

(** A run of a piece of a script: its events in order and, if one ended it,
    the exception. *)
Definition Run : Type := list Event * option exn.

(** [r1] followed by [r2], unless [r1] ended with an exception. *)
Definition and_then (r1 r2 : Run) : Run :=
  match r1.2 with
  | Some _ => r1
  | None => (r1.1 ++ r2.1, r2.2)
  end.

(** [for x in l: f(x)]. *)
Definition for_each {A : Type} (f : A -> Run) (l : list A) : Run :=
  foldr (fun x r => and_then (f x) r) ([], None) l.

(** [sock.sendto(packet, (host, port))], on a socket that takes the
    datagram; building [packet] may have raised. *)
Definition send (packet : option (list byte)) : Run :=
  match packet with
  | Some data => ([sendto data], None)
  | None => ([], Some ValueError)
  end.

(** [time.sleep(seconds)] for a length of at most [2 ^ 32] seconds in
    absolute value (longer ones overflow the clock): a negative length
    raises [ValueError]. The floating-point length is kept as the exact
    quotient. *)
Definition time_sleep (seconds : Q) : Run :=
  if Qle_bool 0 seconds then ([sleep seconds], None)
  else ([], Some ValueError).

(** The datagrams among the events, in order. *)
Definition sent (events : list Event) : list (list byte) :=
  omap (fun ev => match ev with
                  | sendto data => Some data
                  | sleep _ => None
                  end) events.

End Script.

(** ** [caravan_midi.py] *)

Module Caravan.
Import Sender Script.

Definition kick : Z := 36.
Definition snare : Z := 38.
Definition hihat_closed : Z := 42.
Definition hihat_open : Z := 46.
Definition ride : Z := 51.
Definition crash : Z := 49.
Definition tom_low : Z := 45.
Definition tom_mid : Z := 47.
Definition tom_high : Z := 50.

Definition pattern_bar1 : list (list (Z * Z)) :=
  [ [(kick, 110); (hihat_closed, 85)];
    [(hihat_closed, 70)];
    [(snare, 95); (hihat_closed, 80)];
    [(hihat_closed, 65)];
    [(kick, 105)];
    [(hihat_closed, 70)];
    [(snare, 100); (hihat_closed, 85)];
    [(hihat_closed, 75)] ].

Definition pattern_bar2 : list (list (Z * Z)) :=
  [ [(kick, 110); (ride, 80)];
    [(ride, 65)];
    [(snare, 95); (ride, 75)];
    [(ride, 60)];
    [(kick, 105); (ride, 75)];
    [(ride, 70)];
    [(snare, 100); (ride, 80)];
    [(ride, 65)] ].

Definition fill_pattern : list (list (Z * Z)) :=
  [ [(tom_high, 100)];
    [(tom_high, 95)];
    [(tom_mid, 105)];
    [(tom_mid, 100)];
    [(tom_low, 110)];
    [(tom_low, 105)];
    [(kick, 115); (crash, 110)];
    [] ].

(** One step of a pattern: the note-ons, the pause, the note-offs. *)
Definition play_step (seconds : Q) (step : list (Z * Z)) : Run :=
  and_then (for_each (fun nv => send (make_note_on 0 nv.1 nv.2)) step)
    (and_then (time_sleep seconds)
       (for_each (fun nv => send (make_note_off 0 nv.1 64)) step)).

(** One iteration of the [while True] loop, with [bar_count] already
    incremented. *)
Definition play_bar (eighth sixteenth : Q) (bar_count : Z) : Run :=
  if bar_count mod 8 =? 0 then
    for_each (play_step sixteenth) fill_pattern
  else
    let pattern :=
      if bar_count mod 2 =? 1 then pattern_bar1 else pattern_bar2 in
    for_each (play_step eighth) pattern.

(** [play_caravan_pattern], up to the end of its first [bars] iterations
    when nothing interrupts it, for a tempo below [2 ^ 1023] in absolute
    value (a larger integer does not convert to a float). *)
Definition play_caravan_pattern (tempo_bpm : Z) (bars : nat) : Run :=
  if tempo_bpm =? 0 then ([], Some ZeroDivisionError)
  else
    let beat := (60 / inject_Z tempo_bpm)%Q in
    let eighth := (beat / 2)%Q in
    let sixteenth := (beat / 4)%Q in
    for_each (play_bar eighth sixteenth) (seqZ 1 (Z.of_nat bars)).

End Caravan.

(** ** [send_fake_midi.py] *)

Module FakeMidi.
Import Sender Script.

Definition drum_pattern : list (Z * Z * string) :=
  [ (36, 100, "Kick"); (38, 110, "Snare"); (42, 90, "Closed Hi-hat");
    (46, 85, "Open Hi-hat"); (49, 95, "Crash"); (36, 120, "Kick (hard)");
    (38, 100, "Snare"); (42, 80, "Hi-hat"); (47, 90, "Tom Low-Mid");
    (48, 90, "Tom Hi-Mid"); (50, 90, "Tom High"); (51, 85, "Ride") ]%string.

(** The body of the [for] loop of [run]. *)
Definition play_drum (interval : Q) (drum : Z * Z * string) : Run :=
  and_then (send (make_note_on 0 drum.1.1 drum.1.2))
    (and_then (time_sleep interval)
       (and_then (send (make_note_off 0 drum.1.1 64))
          (time_sleep (5 # 100)))).

(** [run], up to the end of its first [passes] iterations of [while True]
    when nothing interrupts it. *)
Definition run (interval : Q) (passes : nat) : Run :=
  for_each (fun _ : nat => for_each (play_drum interval) drum_pattern)
    (seq 0 passes).

End FakeMidi.

(** ** [ui.py]: the tables and names of the drum kit display *)

Module UI.

Definition DRUM_KICK : string := "#e74c3c".
Definition DRUM_SNARE : string := "#3498db".
Definition DRUM_HIHAT : string := "#f39c12".
Definition DRUM_TOM : string := "#9b59b6".
Definition DRUM_CYMBAL : string := "#1abc9c".

(** The pieces [_create_drum_kit] draws, by the attribute that holds their
    canvas objects. *)
Inductive drum_object : Type :=
| crash_id | ride_id | hihat_id
| tom_high_id | tom_mid_id | tom_low_id
| snare_id | kick_id.

(** The fill colour [_create_drum_kit] draws each piece with. *)
Definition drawn_color (piece : drum_object) : string :=
  match piece with
  | crash_id | ride_id => DRUM_CYMBAL
  | hihat_id => DRUM_HIHAT
  | tom_high_id | tom_mid_id | tom_low_id => DRUM_TOM
  | snare_id => DRUM_SNARE
  | kick_id => DRUM_KICK
  end.

(** The dictionary literal [self.note_to_drum] of [_create_drum_kit]. *)
Definition note_to_drum_items : list (Z * (string * drum_object)) :=
  [ (36, ("kick", kick_id)); (35, ("kick", kick_id));
    (38, ("snare", snare_id)); (40, ("snare", snare_id));
    (42, ("hihat", hihat_id)); (44, ("hihat", hihat_id));
    (46, ("hihat", hihat_id));
    (49, ("crash", crash_id)); (52, ("crash", crash_id));
    (51, ("ride", ride_id)); (53, ("ride", ride_id));
    (50, ("tom_high", tom_high_id)); (48, ("tom_mid", tom_mid_id));
    (47, ("tom_low", tom_low_id)); (45, ("tom_low", tom_low_id));
    (43, ("tom_low", tom_low_id)); (41, ("tom_low", tom_low_id)) ]%string.

Definition note_to_drum : gmap Z (string * drum_object) :=
  foldl (fun m kv => <[kv.1 := kv.2]> m) ∅ note_to_drum_items.

(** [needle in hay] for two strings. *)
Fixpoint contains (needle hay : string) : bool :=
  String.prefix needle hay
  || match hay with
     | EmptyString => false
     | String _ hay' => contains needle hay'
     end.

(** The colour [_animate_drum_hit] gives a piece back when the animation
    ends. *)
Definition base_color (drum_name : string) : string :=
  if contains "kick" drum_name then DRUM_KICK
  else if contains "snare" drum_name then DRUM_SNARE
  else if contains "hihat" drum_name then DRUM_HIHAT
  else if contains "tom" drum_name then DRUM_TOM
  else DRUM_CYMBAL.

(** [l[i]] for a list and an integer: a negative index counts from the
    end, and an index out of range raises [IndexError] ([None]). *)
Definition list_getitem {A : Type} (l : list A) (i : Z) : option A :=
  if 0 <=? i then l !! Z.to_nat i
  else if 0 <=? i + Z.of_nat (length l)
       then l !! Z.to_nat (i + Z.of_nat (length l))
       else None.

Definition note_names : list string :=
  [ "C"; "C#"; "D"; "D#"; "E"; "F"; "F#"; "G"; "G#"; "A"; "A#"; "B" ]%string.

(** [_note_to_name]: the name of the pitch class followed by the octave in
    decimal. *)
Definition _note_to_name (note : Z) : option string :=
  let octave := note / 12 - 1 in
  name ← list_getitem note_names (note mod 12);
  Some (name +:+ pretty octave).

End UI.

(** ** [main.py]: the handler wired to the engine *)

Module Main.
Import Py MidiHandler AudioEngine.

(** The note a callback invocation is about; control changes have none. *)
Definition call_note (c : Call) : option Z :=
  match c with
  | note_on_cb note _ => Some note
  | note_off_cb note => Some note
  | control_change_cb _ _ => None
  end.

(** The invocations that are about the note [n], in order. *)
Definition calls_for (n : Z) (calls : list Call) : list Call :=
  filter (fun c => call_note c = Some n) calls.

#[global] Instance Call_eq_dec : EqDecision Call.
Proof. solve_decision. Defined.

(** Every note that the invocations are about is released in the end. *)
Definition balanced (calls : list Call) : Prop :=
  forall n : Z,
    calls_for n calls = []
    \/ last (calls_for n calls) = Some (note_off_cb n).

(** The same, as a test on the invocations. *)
Definition balancedb (calls : list Call) : bool :=
  forallb (fun c => match call_note c with
                    | Some n => bool_decide (last (calls_for n calls)
                                             = Some (note_off_cb n))
                    | None => true
                    end) calls.

(** What the closures [note_on] and [note_off] of [main] do to the engine
    for a sequence of callback invocations. [plays] lists what the
    successive calls of [sound.play()] return; past its end no channel is
    free. [main] registers no control-change callback. The call
    [ui.show_note] that follows [engine.note_on] does not touch the
    engine. *)
Fixpoint perform (calls : list Call) (plays : list (option nat))
    (e : engine) : engine :=
  match calls with
  | [] => e
  | note_on_cb note velocity :: calls' =>
      perform calls' (tail plays)
        (note_on note velocity (mjoin (head plays)) e).1
  | note_off_cb note :: calls' => perform calls' plays (note_off note e).1
  | control_change_cb _ _ :: calls' => perform calls' plays e
  end.

(** The callbacks of the datagrams the server hands to
    [midi.handle_packet], one call per datagram, in order of arrival. An
    exception of a call is caught by the server, which goes on. *)
Fixpoint on_packets (mido : option MidoParser) (datagrams : list (list byte))
  : option (list Call) :=
  match datagrams with
  | [] => Some []
  | data :: datagrams' =>
      match handle_packet false mido data with
      | Some (Ok calls) => app calls <$> on_packets mido datagrams'
      | Some (Raise _) => on_packets mido datagrams'
      | None => None
      end
  end.

End Main.

(** * Properties of the packet parser *)

Section FallbackParser.
Import Py MidiHandler.

Variable has_cc : bool.

Lemma byte_val_range (b : byte) : 0 <= byte_val b <= 255.
Proof.
  unfold byte_val. pose proof (Byte.to_N_bounded b). lia.
Qed.

Lemma getitem_Some (data : list byte) (i : nat) (b : byte) :
  data !! i = Some b -> getitem data i = Ok (byte_val b).
Proof. intros H. unfold getitem. by rewrite H. Qed.

(** An induction scheme that follows the recursive calls of [scan]. *)
Lemma scan_rect (P : list byte -> Prop) :
  P [] ->
  (forall s rest,
      P rest ->
      (forall a b rest'', rest = a :: b :: rest'' -> P rest'') ->
      P (s :: rest)) ->
  forall l, P l.
Proof.
  intros Hnil Hcons l.
  cut (P l /\ (forall a r, l = a :: r -> P r)
       /\ (forall a b r, l = a :: b :: r -> P r)); [tauto |].
  induction l as [| s rest (IH1 & IH2 & IH3)].
  - repeat split; [assumption | discriminate | discriminate].
  - repeat split.
    + apply Hcons; [assumption | exact IH3].
    + intros a r [= _ <-]. assumption.
    + intros a b r [= _ Hr]. exact (IH2 _ _ Hr).
Qed.

(** The iteration only advances the cursor by one. *)
Local Ltac skip_one_byte i :=
  exists (i + 1)%nat, []; rewrite Nat.add_1_r;
  split; [reflexivity |]; split; [lia |]; split; [lia |]; reflexivity.

(** What one iteration does, in terms of the bytes from the cursor on. *)
Lemma loop_body_scan (data : list byte) (i : nat) :
  (i < length data)%nat ->
  exists i' calls,
    loop_body has_cc data i = Ok (i', calls)
    /\ (i' = i + 1 \/ i' = i + 3)%nat
    /\ (i' <= length data)%nat
    /\ scan has_cc (drop i data) = calls ++ scan has_cc (drop i' data).
Proof.
  intros Hi.
  destruct (lookup_lt_is_Some_2 data i Hi) as [s Hs].
  unfold loop_body. rewrite (getitem_Some _ _ _ Hs). cbn [mbind result_bind].
  rewrite (drop_S _ _ _ Hs). cbn [scan].
  destruct ((0x80 <=? byte_val s) && (byte_val s <=? 0xEF)) eqn:Hst;
    cbn [andb].
  2: { skip_one_byte i. }
  destruct (supported (Z.land (byte_val s) 0xF0)) eqn:Hsup.
  2: { skip_one_byte i. }
  destruct (i + 2 <? length data)%nat eqn:Hlen.
  - apply Nat.ltb_lt in Hlen.
    destruct (lookup_lt_is_Some_2 data (i + 1)) as [a Ha]; [lia |].
    destruct (lookup_lt_is_Some_2 data (i + 2)) as [b Hb]; [lia |].
    rewrite (getitem_Some _ _ _ Ha), (getitem_Some _ _ _ Hb).
    cbn [mbind result_bind].
    exists (i + 3)%nat, (dispatch has_cc (Z.land (byte_val s) 0xF0)
                           (byte_val a) (byte_val b)).
    replace (i + 1)%nat with (S i) in Ha by lia.
    replace (i + 2)%nat with (S (S i)) in Hb by lia.
    rewrite (drop_S _ _ _ Ha), (drop_S _ _ _ Hb).
    replace (i + 3)%nat with (S (S (S i))) by lia.
    split; [reflexivity |]. split; [lia |]. split; [lia |]. reflexivity.
  - apply Nat.ltb_ge in Hlen.
    exists (i + 1)%nat, []. rewrite Nat.add_1_r.
    split; [reflexivity |]. split; [lia |]. split; [lia |]. cbn [app].
    destruct (drop (S i) data) as [| a [| b r]] eqn:Hd; try reflexivity.
    apply (f_equal length) in Hd. rewrite length_drop in Hd.
    cbn [length] in Hd. lia.
Qed.

(** With one unit of fuel per remaining byte the loop runs to its end, and
    the callbacks it performs are those of [scan]. *)
Lemma while_loop_scan (fuel : nat) (data : list byte) :
  forall i, (length data - i <= fuel)%nat ->
    while_loop has_cc fuel data i = Some (Ok (scan has_cc (drop i data))).
Proof.
  induction fuel as [| fuel IH]; intros i Hfuel.
  - cbn [while_loop].
    destruct (i <? length data)%nat eqn:Hi.
    + apply Nat.ltb_lt in Hi. lia.
    + apply Nat.ltb_ge in Hi. by rewrite drop_ge.
  - cbn [while_loop].
    destruct (i <? length data)%nat eqn:Hi.
    + apply Nat.ltb_lt in Hi.
      destruct (loop_body_scan data i Hi) as (i' & calls & -> & Hi' & _ & ->).
      rewrite IH by lia. reflexivity.
    + apply Nat.ltb_ge in Hi. by rewrite drop_ge.
Qed.

Lemma fallback_parser_scan (data : list byte) :
  fallback_parser has_cc data = Some (Ok (scan has_cc data)).
Proof.
  unfold fallback_parser. rewrite while_loop_scan by lia. reflexivity.
Qed.

(** Each callback the parser invokes stems from a supported status byte of
    the buffer that is followed by two bytes. *)
Lemma scan_calls_positions (rest : list byte) (c : Call) :
  c ∈ scan has_cc rest ->
  exists (j : nat) (st a b : byte),
    rest !! j = Some st /\ rest !! (j + 1)%nat = Some a
    /\ rest !! (j + 2)%nat = Some b
    /\ 0x80 <= byte_val st <= 0xEF
    /\ supported (Z.land (byte_val st) 0xF0) = true
    /\ c ∈ dispatch has_cc (Z.land (byte_val st) 0xF0)
                    (byte_val a) (byte_val b).
Proof.
  induction rest as [| s rest IH1 IH2] using scan_rect; cbn [scan].
  - intros H. by apply elem_of_nil in H.
  - assert (Hskip : c ∈ scan has_cc rest ->
              exists (j : nat) (st a b : byte),
                (s :: rest) !! j = Some st
                /\ (s :: rest) !! (j + 1)%nat = Some a
                /\ (s :: rest) !! (j + 2)%nat = Some b
                /\ 0x80 <= byte_val st <= 0xEF
                /\ supported (Z.land (byte_val st) 0xF0) = true
                /\ c ∈ dispatch has_cc (Z.land (byte_val st) 0xF0)
                                (byte_val a) (byte_val b)).
    { intros (j & st & a & b & H) % IH1. by exists (S j), st, a, b. }
    destruct ((0x80 <=? byte_val s) && (byte_val s <=? 0xEF)
              && supported (Z.land (byte_val s) 0xF0)) eqn:Hst;
      [| exact Hskip].
    destruct rest as [| a [| b rest'']]; [exact Hskip | exact Hskip |].
    intros [Hc | Hc] % elem_of_app.
    + apply andb_true_iff in Hst as [Hrange Hsup].
      apply andb_true_iff in Hrange as [Hlo Hhi].
      exists 0%nat, s, a, b. cbn. repeat split; try done; lia.
    + destruct (IH2 a b rest'' eq_refl Hc) as (j & st & a' & b' & H).
      by exists (S (S (S j))), st, a', b'.
Qed.

(** The arguments of the callbacks of one message are its two data bytes,
    as they are. *)
Lemma dispatch_call_args (typ a b : Z) (c : Call) :
  c ∈ dispatch has_cc typ a b ->
  call_args c = [a; b] \/ call_args c = [a].
Proof.
  unfold dispatch. intros Hc.
  repeat match type of Hc with
         | context [if ?g then _ else _] => destruct g
         end;
    first [ by apply elem_of_nil in Hc
          | apply list_elem_of_singleton in Hc as ->; cbn; tauto ].
Qed.



End FallbackParser.

(** ** The claims about the parser *)

Section ParserClaims.
Import Py MidiHandler.

Variable has_cc : bool.

(** C1, as amended. For every byte buffer the parser returns, and every
    note/controller number and velocity/value it passes to a callback is
    the value, unmasked, of the first or second byte after a supported
    status byte of the buffer: it lies in [0, 255], and it lies in
    [0, 127] when these two bytes have their high bit clear. *)
Theorem fallback_fields_are_raw_bytes (data : list byte) :
  exists calls,
    handle_packet has_cc None data = Some (Ok calls)
    /\ forall c, c ∈ calls ->
         exists (i : nat) (st a b : byte),
           data !! i = Some st /\ data !! (i + 1)%nat = Some a
           /\ data !! (i + 2)%nat = Some b
           /\ 0x80 <= byte_val st <= 0xEF
           /\ supported (Z.land (byte_val st) 0xF0) = true
           /\ (call_args c = [byte_val a; byte_val b]
               \/ call_args c = [byte_val a])
           /\ Forall (fun x => 0 <= x <= 255) (call_args c)
           /\ (byte_val a <= 127 -> byte_val b <= 127 ->
               Forall (fun x => 0 <= x <= 127) (call_args c)).
Proof.
  exists (scan has_cc data). split; [apply fallback_parser_scan |].
  intros c Hc.
  destruct (scan_calls_positions has_cc data c Hc)
    as (i & st & a & b & Hi & Ha & Hb & Hrange & Hsup & Hd).
  exists i, st, a, b.
  pose proof (byte_val_range a) as Hra.
  pose proof (byte_val_range b) as Hrb.
  repeat (split; [assumption |]).
  apply dispatch_call_args in Hd.
  split; [exact Hd |].
  destruct Hd as [-> | ->]; split; intros; repeat constructor; lia.
Qed.


(** C3. For every byte buffer: each iteration of the fallback loop entered
    with a cursor inside the buffer completes without an exception (all
    index accesses are in range) and moves the cursor forward by 1 or by
    3, never beyond the end; a byte that is no supported status byte
    moves it by 1 and invokes nothing; the loop ends within one iteration
    per byte; and [handle_packet] returns normally, whether [mido] is
    absent, raises or parses. *)
Theorem fallback_parser_terminates (data : list byte) :
  (forall i : nat, (i < length data)%nat ->
      exists i' calls,
        loop_body has_cc data i = Ok (i', calls)
        /\ (i' = i + 1 \/ i' = i + 3)%nat
        /\ (i' <= length data)%nat)
  /\ (forall (i : nat) (st : byte),
         data !! i = Some st ->
         byte_val st < 0x80 \/ 0xEF < byte_val st
         \/ supported (Z.land (byte_val st) 0xF0) = false ->
         loop_body has_cc data i = Ok ((i + 1)%nat, []))
  /\ (forall fuel : nat, (length data <= fuel)%nat ->
         exists calls, while_loop has_cc fuel data 0 = Some (Ok calls))
  /\ (exists calls, fallback_parser has_cc data = Some (Ok calls))
  /\ (forall mido : option MidoParser,
         exists calls, handle_packet has_cc mido data = Some (Ok calls)).
Proof.
  split; [| split; [| split; [| split]]].
  - intros i Hi.
    destruct (loop_body_scan has_cc data i Hi)
      as (i' & calls & Hbody & Hstep & Hle & _).
    by exists i', calls.
  - intros i st Hst Hskip.
    unfold loop_body. rewrite (getitem_Some _ _ _ Hst).
    cbn [mbind result_bind].
    destruct ((0x80 <=? byte_val st) && (byte_val st <=? 0xEF)) eqn:Hrange;
      [| reflexivity].
    destruct (supported (Z.land (byte_val st) 0xF0)) eqn:Hsup;
      [| reflexivity].
    apply andb_true_iff in Hrange as [Hlo Hhi].
    destruct Hskip as [H | [H | H]]; [lia | lia | discriminate H].
  - intros fuel Hfuel. eexists. apply while_loop_scan. lia.
  - eexists. apply fallback_parser_scan.
  - intros [parse_all |]; cbn [handle_packet].
    + destruct (parse_all data) as [msgs |].
      * by eexists.
      * eexists. apply fallback_parser_scan.
    + eexists. apply fallback_parser_scan.
Qed.

(** C4. A buffer of fewer than three bytes yields no callback, so the
    empty buffer, a lone status byte and [[0x90, 0x24]] do not; more
    generally, once fewer than three bytes remain after the cursor, every
    further iteration only steps over one byte and the rest of the run
    invokes nothing: a status byte that lacks its two data bytes is
    dropped. *)
Theorem truncated_message_dropped :
  (forall data : list byte, (length data < 3)%nat ->
      handle_packet has_cc None data = Some (Ok []))
  /\ (forall (data : list byte) (i : nat),
         (i < length data)%nat -> (length data <= i + 2)%nat ->
         loop_body has_cc data i = Ok ((i + 1)%nat, []))
  /\ (forall (data : list byte) (i fuel : nat),
         (length data <= i + 2)%nat -> (length data - i <= fuel)%nat ->
         while_loop has_cc fuel data i = Some (Ok []))
  /\ handle_packet has_cc None [] = Some (Ok [])
  /\ (forall st : byte, handle_packet has_cc None [st] = Some (Ok []))
  /\ handle_packet has_cc None [x90; x24] = Some (Ok []).
Proof.
  assert (Hshort : forall rest : list byte,
             (length rest < 3)%nat -> scan has_cc rest = []).
  { intros [| s [| a [| b rest]]] Hlen; cbn [scan]; try reflexivity.
    - by case_match.
    - by repeat case_match.
    - cbn [length] in Hlen. lia. }
  split; [| split; [| split; [| split; [| split]]]].
  - intros data Hlen. cbn [handle_packet].
    rewrite fallback_parser_scan. by rewrite Hshort.
  - intros data i Hi Hlen.
    destruct (lookup_lt_is_Some_2 data i Hi) as [st Hst].
    unfold loop_body. rewrite (getitem_Some _ _ _ Hst).
    cbn [mbind result_bind].
    apply Nat.ltb_ge in Hlen. rewrite Hlen.
    by repeat match goal with
              | |- context [if ?g then _ else _] => destruct g
              end.
  - intros data i fuel Hlen Hfuel.
    rewrite while_loop_scan by exact Hfuel.
    rewrite Hshort; [reflexivity |]. rewrite length_drop. lia.
  - reflexivity.
  - intros st. cbn [handle_packet].
    rewrite fallback_parser_scan, Hshort by (cbn [length]; lia).
    reflexivity.
  - cbn [handle_packet]. rewrite fallback_parser_scan. reflexivity.
Qed.

End ParserClaims.

Section ParserWitnesses.
Import Py MidiHandler.

(** The buffer [[0x90, 0x80, 0xFF]] reaches [note_on_cb] as note 128 with
    velocity 255: the parser does not mask its data bytes. *)
Lemma high_bit_data_bytes_reach_callback :
  handle_packet true None [x90; x80; xff] = Some (Ok [note_on_cb 128 255])
  /\ ~ seven_bit_fields [note_on_cb 128 255].
Proof.
  split; [reflexivity |].
  intros H. apply Forall_cons_1 in H as [H _].
  apply Forall_cons_1 in H as [[_ H] _]. lia.
Qed.

Lemma fallback_fields_are_raw_bytes_witness :
  exists calls,
    handle_packet true None [x90; x26; x64] = Some (Ok calls)
    /\ seven_bit_fields calls.
Proof.
  destruct (fallback_fields_are_raw_bytes true [x90; x26; x64])
    as (calls & Hcalls & Hfields).
  exists calls. split; [exact Hcalls |].
  apply Forall_forall. intros c Hc.
  destruct (Hfields c Hc)
    as (i & st & a & b & _ & Ha & Hb & _ & _ & _ & _ & Hseven).
  pose proof (lookup_lt_Some _ _ _ Hb) as Hi. cbn [length] in Hi.
  assert (i = 0%nat) as -> by lia.
  injection Ha as <-. injection Hb as <-.
  apply Hseven; vm_compute; discriminate.
Defined.


Lemma fallback_parser_terminates_witness :
  exists i' calls,
    loop_body false [xf8; x90; x24; x7f] 1 = Ok (i', calls)
    /\ (i' = 1 + 1 \/ i' = 1 + 3)%nat
    /\ (i' <= 4)%nat.
Proof.
  destruct (fallback_parser_terminates false [xf8; x90; x24; x7f])
    as [Hbody _].
  apply (Hbody 1%nat). cbn [length]. lia.
Defined.

Lemma truncated_message_dropped_witness :
  handle_packet true None [x90; x24] = Some (Ok [])
  /\ loop_body true [x00; x80; x24] 1 = Ok (2%nat, []).
Proof.
  destruct (truncated_message_dropped true) as (Hshort & Hbody & _).
  split.
  - apply Hshort. cbn [length]. lia.
  - apply (Hbody [x00; x80; x24] 1%nat); cbn [length]; lia.
Defined.

End ParserWitnesses.

(** * Properties of the playback engine *)

Section EngineLemmas.
Import AudioEngine.

Variable synth : Synthesis.
Variable rate : Z.

Lemma run_cons (o : op) (ops : list op) (e : engine) :
  run (o :: ops) e = run ops (step e o).1.
Proof. reflexivity. Qed.

Lemma step_note_map (e : engine) (o : op) :
  _note_map (step e o).1 = _note_map e.
Proof.
  destruct o as [note velocity played | note]; cbn [step].
  - unfold note_on. destruct (_drum_samples e !! _); [| reflexivity].
    by destruct played.
  - unfold note_off. by destruct (_active e !! note).
Qed.

Lemma run_note_map (ops : list op) (e : engine) :
  _note_map (run ops e) = _note_map e.
Proof.
  revert e. induction ops as [| o ops IH]; intros e; [reflexivity |].
  rewrite run_cons, IH. apply step_note_map.
Qed.

Lemma run_drum_type (ops : list op) (e : engine) (note : Z) :
  drum_type (run ops e) note = drum_type e note.
Proof. unfold drum_type. by rewrite run_note_map. Qed.

(** What [note_on] does to the sound bank. *)
Lemma note_on_drum_samples (note velocity : Z) (played : option nat)
    (e : engine) :
  _drum_samples (note_on note velocity played e).1
  = match _drum_samples e !! drum_type e note with
    | Some sound =>
        <[drum_type e note := set_volume (velocity # 127) sound]>
          (_drum_samples e)
    | None => _drum_samples e
    end.
Proof.
  unfold note_on. destruct (_drum_samples e !! _); [| reflexivity].
  by destruct played.
Qed.

Lemma note_off_drum_samples (note : Z) (e : engine) :
  _drum_samples (note_off note e).1 = _drum_samples e.
Proof. unfold note_off. by destruct (_active e !! note). Qed.

Lemma set_volume_frames (value : Q) (s : Sound) :
  frames (set_volume value s) = frames s.
Proof. unfold set_volume. cbn zeta. by case_match. Qed.

(** No call replaces a frame buffer, and none adds or removes a sound. *)
Lemma step_frames (e : engine) (o : op) (k : string) :
  frames <$> (_drum_samples (step e o).1 !! k)
  = frames <$> (_drum_samples e !! k).
Proof.
  destruct o as [note velocity played | note]; cbn [step].
  - rewrite note_on_drum_samples.
    destruct (_drum_samples e !! drum_type e note) as [sound |] eqn:Hs;
      [| reflexivity].
    destruct (decide (drum_type e note = k)) as [<- | Hk].
    + rewrite lookup_insert_eq, Hs. cbn. by rewrite set_volume_frames.
    + by rewrite lookup_insert_ne.
  - by rewrite note_off_drum_samples.
Qed.

Lemma run_frames (ops : list op) (e : engine) (k : string) :
  frames <$> (_drum_samples (run ops e) !! k)
  = frames <$> (_drum_samples e !! k).
Proof.
  revert e. induction ops as [| o ops IH]; intros e; [reflexivity |].
  rewrite run_cons, IH. apply step_frames.
Qed.

(** Every note resolves to one of the nine keys of the bank. *)
Lemma init_drum_type_in_bank (note : Z) :
  drum_type (__init__ synth rate) note ∈ drum_types.
Proof.
  assert (Hall : map_Forall (fun _ v => v ∈ drum_types)
                   (_note_map (__init__ synth rate))).
  { cbn [__init__ _note_map note_map_items foldl fst snd].
    repeat (apply map_Forall_insert_2;
            [unfold drum_types; repeat constructor |]).
    apply map_Forall_empty. }
  unfold drum_type.
  destruct (_note_map (__init__ synth rate) !! note) as [v |] eqn:Hv.
  - exact (Hall note v Hv).
  - unfold drum_types. repeat constructor.
Qed.

Lemma init_bank_complete (k : string) :
  k ∈ drum_types -> is_Some (_drum_samples (__init__ synth rate) !! k).
Proof.
  unfold drum_types. intros Hk.
  repeat (apply elem_of_cons in Hk as [-> | Hk]; [by eexists |]).
  by apply elem_of_nil in Hk.
Qed.

(** In every state an engine can reach, every note has a sound. *)
Lemma reachable_sound (ops : list op) (note : Z) :
  let e := run ops (__init__ synth rate) in
  is_Some (_drum_samples e !! drum_type e note).
Proof.
  cbn zeta. rewrite run_drum_type.
  pose proof (init_bank_complete _ (init_drum_type_in_bank note)) as Hs.
  apply fmap_is_Some with (f := frames). rewrite run_frames.
  by apply fmap_is_Some.
Qed.

End EngineLemmas.

(** ** The claims about the playback engine *)

Section EngineClaims.
Import AudioEngine.

Variable synth : Synthesis.
Variable rate : Z.

(** C5. In every state the engine reaches from its construction by calls
    of [note_on] and [note_off], the table of active voices holds at most
    one channel per note; and a [note_on] that obtains a channel tracks
    that channel for its note, whether or not the note was tracked
    before, leaves the entries of all other notes as they were, does not
    grow the table when the note was tracked already, and fades out no
    channel. *)
Theorem one_tracked_handle_per_note (ops : list op) :
  let e := run ops (__init__ synth rate) in
  (forall (note : Z) (ch1 ch2 : nat),
      (note, ch1) ∈ map_to_list (_active e) ->
      (note, ch2) ∈ map_to_list (_active e) -> ch1 = ch2)
  /\ (forall (note velocity : Z) (channel : nat),
         let r := note_on note velocity (Some channel) e in
         _active r.1 !! note = Some channel
         /\ (forall n : Z, n <> note -> _active r.1 !! n = _active e !! n)
         /\ (is_Some (_active e !! note) ->
             size (_active r.1) = size (_active e))
         /\ r.2 = [call_set_volume (drum_type e note) (velocity # 127);
                   call_play (drum_type e note)]
         /\ (forall (ch : nat) (ms : Z), call_fadeout ch ms ∉ r.2)).
Proof.
  intros e. split.
  - intros note ch1 ch2. apply map_to_list_unique.
  - intros note velocity channel r.
    destruct (reachable_sound synth rate ops note) as [sound Hsound].
    fold e in Hsound. subst r. unfold note_on. rewrite Hsound.
    cbn [fst snd _active].
    split; [apply lookup_insert_eq |].
    split; [intros n Hn; by apply lookup_insert_ne |].
    split; [apply map_size_insert_Some |].
    split; [reflexivity |].
    intros ch ms Hin.
    apply elem_of_cons in Hin as [Hin | Hin]; [discriminate Hin |].
    apply list_elem_of_singleton in Hin. discriminate Hin.
Qed.

(** C6. [note_off(note)] on a tracked note fades its channel out over
    100 ms and removes the entry, leaving the other entries and the rest
    of the engine as they were; on a note that is not tracked it changes
    nothing and calls nothing; hence a [note_off] that follows a
    [note_off] of the same note is a no-op, in particular after
    [note_on(36, 127)] and [note_off(36)]. *)
Theorem note_off_untracked_is_noop (e : engine) (note : Z) :
  (forall channel : nat,
      _active e !! note = Some channel ->
      (note_off note e).2 = [call_fadeout channel 100]
      /\ _active (note_off note e).1 !! note = None
      /\ (forall n : Z, n <> note ->
             _active (note_off note e).1 !! n = _active e !! n)
      /\ _drum_samples (note_off note e).1 = _drum_samples e
      /\ _note_map (note_off note e).1 = _note_map e
      /\ sample_rate (note_off note e).1 = sample_rate e)
  /\ (_active e !! note = None -> note_off note e = (e, []))
  /\ (let e' := (note_off note e).1 in note_off note e' = (e', []))
  /\ (forall played : option nat,
         let e1 := (note_on 36 127 played (__init__ synth rate)).1 in
         let e2 := (note_off 36 e1).1 in
         note_off 36 e2 = (e2, [])).
Proof.
  assert (Hnone : forall (e0 : engine) (n : Z),
             _active e0 !! n = None -> note_off n e0 = (e0, [])).
  { intros e0 n H. unfold note_off. rewrite H, (delete_id _ _ H).
    by destruct e0. }
  assert (Hgone : forall (e0 : engine) (n : Z),
             _active (note_off n e0).1 !! n = None).
  { intros e0 n. unfold note_off.
    destruct (_active e0 !! n); cbn [fst _active]; apply lookup_delete_eq. }
  split; [| split; [| split]].
  - intros channel Htracked.
    split; [unfold note_off; by rewrite Htracked |].
    split; [apply Hgone |].
    unfold note_off. rewrite Htracked. cbn [fst _active _drum_samples
                                             _note_map sample_rate].
    split; [intros n Hn; by apply lookup_delete_ne |]. done.
  - apply Hnone.
  - intros e'. apply Hnone, Hgone.
  - intros played e1 e2. apply Hnone, Hgone.
Qed.

(** C7. In every state the engine reaches, a note that is no key of the
    note map resolves to ["snare"], and [note_on] for it sets the gain of
    the snare sound and plays it; the keys of the map are the seventeen
    notes 35, 36, 38, 40-53, which resolve to their drum types; note 127
    resolves to ["snare"]. *)
Theorem unmapped_note_defaults_to_snare (ops : list op) :
  let e := run ops (__init__ synth rate) in
  (forall note : Z,
      note ∉ dom (_note_map e) ->
      drum_type e note = "snare"%string
      /\ forall (velocity : Z) (played : option nat),
           (note_on note velocity played e).2
           = [call_set_volume "snare" (velocity # 127);
              call_play "snare"])
  /\ dom (_note_map e) = list_to_set mapped_notes
  /\ drum_type e <$> mapped_notes = mapped_drum_types
  /\ drum_type e 127 = "snare"%string.
Proof.
  intros e.
  assert (Hmap : _note_map e = _note_map (__init__ synth rate))
    by apply run_note_map.
  split; [| split; [| split]].
  - intros note Hnote. apply not_elem_of_dom_1 in Hnote.
    assert (Hdrum : drum_type e note = "snare"%string)
      by (unfold drum_type; by rewrite Hnote).
    split; [exact Hdrum |].
    intros velocity played.
    destruct (reachable_sound synth rate ops note) as [sound Hsound].
    fold e in Hsound. unfold note_on. rewrite Hsound, Hdrum.
    by destruct played.
  - rewrite Hmap. apply set_eq. intros note.
    cbn [__init__ _note_map note_map_items foldl fst snd].
    rewrite !dom_insert, dom_empty. unfold mapped_notes. set_solver.
  - unfold drum_type. rewrite Hmap. reflexivity.
  - unfold drum_type. rewrite Hmap. reflexivity.
Qed.

(** C8, as amended. No sequence of [note_on] and [note_off] calls adds or
    removes a sound of the bank or changes the frames of one;
    [note_off] leaves the bank as it is; [note_on] leaves every sound
    other than the one its note resolves to as it is, and changes of that
    one the playback gain only, by its call [set_volume(velocity / 127.0)]:
    the frames of the sound stay. *)
Theorem frames_never_mutated (ops : list op) (e : engine) :
  (forall k : string,
      frames <$> (_drum_samples (run ops e) !! k)
      = frames <$> (_drum_samples e !! k))
  /\ (forall note : Z, _drum_samples (note_off note e).1 = _drum_samples e)
  /\ (forall (note velocity : Z) (played : option nat) (k : string),
         k <> drum_type e note ->
         _drum_samples (note_on note velocity played e).1 !! k
         = _drum_samples e !! k)
  /\ (forall (note velocity : Z) (played : option nat) (sound : Sound),
         _drum_samples e !! drum_type e note = Some sound ->
         (exists sound' : Sound,
             _drum_samples (note_on note velocity played e).1
               !! drum_type e note
             = Some sound'
             /\ frames sound' = frames sound)
         /\ (note_on note velocity played e).2
            = [call_set_volume (drum_type e note) (velocity # 127);
               call_play (drum_type e note)]).
Proof.
  split; [| split; [| split]].
  - intros k. apply run_frames.
  - intros note. apply note_off_drum_samples.
  - intros note velocity played k Hk. rewrite note_on_drum_samples.
    destruct (_drum_samples e !! drum_type e note); [| reflexivity].
    by rewrite lookup_insert_ne.
  - intros note velocity played sound Hsound. split.
    + exists (set_volume (velocity # 127) sound).
      rewrite note_on_drum_samples, Hsound.
      split; [apply lookup_insert_eq | apply set_volume_frames].
    + unfold note_on. rewrite Hsound. by destruct played.
Qed.

(** C10. When [sound.play()] yields no channel, [note_on] leaves the table
    of active voices exactly as it was, so a channel tracked for the note
    stays tracked; and a later [note_on] that obtains a channel sets the
    gain, plays and tracks that channel as usual. *)
Theorem failed_play_leaves_active_table (ops : list op)
    (note velocity : Z) :
  let e := run ops (__init__ synth rate) in
  let e' := (note_on note velocity None e).1 in
  _active e' = _active e
  /\ (forall channel : nat,
         _active e !! note = Some channel ->
         _active e' !! note = Some channel)
  /\ (forall (n v : Z) (channel : nat),
         (note_on n v (Some channel) e').2
         = [call_set_volume (drum_type e n) (v # 127);
            call_play (drum_type e n)]
         /\ _active (note_on n v (Some channel) e').1
            = <[n := channel]> (_active e)).
Proof.
  intros e e'.
  assert (Hactive : _active e' = _active e).
  { subst e'. unfold note_on.
    by destruct (_drum_samples e !! drum_type e note). }
  split; [exact Hactive |].
  split; [intros channel; by rewrite Hactive |].
  intros n v channel.
  assert (He' : e' = run (ops ++ [NoteOn note velocity None])
                       (__init__ synth rate)).
  { unfold run. by rewrite foldl_app. }
  assert (Hdrum : drum_type e' n = drum_type e n).
  { rewrite He'. subst e. by rewrite !run_drum_type. }
  pose proof (reachable_sound synth rate
                (ops ++ [NoteOn note velocity None]) n) as [sound Hsound].
  cbn zeta in Hsound. rewrite <- He', Hdrum in Hsound.
  unfold note_on. rewrite Hdrum, Hsound. cbn [fst snd _active].
  by rewrite Hactive.
Qed.

End EngineClaims.

Section EngineWitnesses.
Import AudioEngine.

(** [note_on(36, 64)] on a new engine turns the gain of the kick sound
    from 1 into 64/128: the sound objects of the bank are mutated. *)
Lemma note_on_changes_playback_gain :
  volume <$> (_drum_samples (__init__ example_synthesis 44100) !! "kick")
  = Some 1%Q
  /\ volume <$> (_drum_samples
                   (note_on 36 64 (Some 0%nat)
                      (__init__ example_synthesis 44100)).1 !! "kick")
     = Some (64 # 128)
  /\ ~ (64 # 128 == 1)%Q
  /\ _drum_samples
       (note_on 36 64 (Some 0%nat) (__init__ example_synthesis 44100)).1
     <> _drum_samples (__init__ example_synthesis 44100).
Proof.
  split; [reflexivity |]. split; [reflexivity |].
  split; [intros H; vm_compute in H; discriminate H |].
  intros H. apply (f_equal (fun m => volume <$> m !! "kick"%string)) in H.
  vm_compute in H. discriminate H.
Qed.

Lemma one_tracked_handle_per_note_witness :
  size (_active
          (note_on 36 127 (Some 2%nat)
             (run [NoteOn 36 100 (Some 1%nat)]
                (__init__ example_synthesis 44100))).1)
  = size (_active (run [NoteOn 36 100 (Some 1%nat)]
                     (__init__ example_synthesis 44100))).
Proof.
  destruct (one_tracked_handle_per_note example_synthesis 44100
              [NoteOn 36 100 (Some 1%nat)]) as [_ Hon].
  destruct (Hon 36 127 2%nat) as (_ & _ & Hsize & _).
  apply Hsize. exists 1%nat. reflexivity.
Defined.

Lemma note_off_untracked_is_noop_witness :
  (note_off 36 (run [NoteOn 36 127 (Some 1%nat)]
                  (__init__ example_synthesis 44100))).2
  = [call_fadeout 1 100].
Proof.
  destruct (note_off_untracked_is_noop example_synthesis 44100
              (run [NoteOn 36 127 (Some 1%nat)]
                 (__init__ example_synthesis 44100)) 36) as [Htracked _].
  destruct (Htracked 1%nat) as [Hcalls _]; [reflexivity | exact Hcalls].
Defined.

Lemma unmapped_note_defaults_to_snare_witness :
  drum_type (run [] (__init__ example_synthesis 44100)) 127
  = "snare"%string.
Proof.
  destruct (unmapped_note_defaults_to_snare example_synthesis 44100 [])
    as [Hunmapped _].
  apply (Hunmapped 127). apply not_elem_of_dom_2. reflexivity.
Defined.

Lemma frames_never_mutated_witness :
  _drum_samples
    (note_on 36 64 None (__init__ example_synthesis 44100)).1 !! "snare"
  = _drum_samples (__init__ example_synthesis 44100) !! "snare".
Proof.
  destruct (frames_never_mutated [] (__init__ example_synthesis 44100))
    as (_ & _ & Hother & _).
  apply Hother. vm_compute. discriminate.
Defined.

Lemma failed_play_leaves_active_table_witness :
  _active (note_on 36 90 None
             (run [NoteOn 36 100 (Some 3%nat)]
                (__init__ example_synthesis 44100))).1 !! 36
  = Some 3%nat.
Proof.
  destruct (failed_play_leaves_active_table example_synthesis 44100
              [NoteOn 36 100 (Some 3%nat)] 36 90) as (_ & Hkept & _).
  apply Hkept. reflexivity.
Defined.

End EngineWitnesses.

(** * Further properties of the packet parser *)

Section ParserStream.
Import Py MidiHandler.

Variable has_cc : bool.

Lemma dispatch_length (typ a b : Z) :
  (length (dispatch has_cc typ a b) <= 1)%nat.
Proof.
  unfold dispatch. repeat case_match; cbn [length]; lia.
Qed.

(** A supported high nibble belongs to a byte of the accepted range. *)
Lemma supported_in_range (st : byte) :
  supported (Z.land (byte_val st) 0xF0) = true ->
  (0x80 <=? byte_val st) && (byte_val st <=? 0xEF) = true.
Proof.
  destruct st; vm_compute; intros H; first [reflexivity | discriminate H].
Qed.

(** A complete message at the head of the bytes is dispatched, and the scan
    goes on behind it. *)
Lemma scan_message (st a b : byte) (rest : list byte) :
  supported (Z.land (byte_val st) 0xF0) = true ->
  scan has_cc (st :: a :: b :: rest)
  = dispatch has_cc (Z.land (byte_val st) 0xF0) (byte_val a) (byte_val b)
      ++ scan has_cc rest.
Proof.
  intros Hsup. cbn [scan].
  by rewrite (supported_in_range st Hsup), Hsup.
Qed.

Lemma scan_skip (st : byte) (rest : list byte) :
  supported (Z.land (byte_val st) 0xF0) = false ->
  scan has_cc (st :: rest) = scan has_cc rest.
Proof.
  intros Hsup. cbn [scan]. rewrite Hsup, andb_false_r. reflexivity.
Qed.

(** X1. The parser invokes at most one callback for every three bytes of
    the buffer. *)
Theorem callbacks_at_most_a_third (data : list byte) :
  exists calls,
    handle_packet has_cc None data = Some (Ok calls)
    /\ (3 * length calls <= length data)%nat.
Proof.
  exists (scan has_cc data). split; [apply fallback_parser_scan |].
  induction data as [| s rest IH1 IH2] using scan_rect; [cbn; lia |].
  cbn [scan].
  destruct ((0x80 <=? byte_val s) && (byte_val s <=? 0xEF)
            && supported (Z.land (byte_val s) 0xF0));
    [| cbn [length]; lia].
  destruct rest as [| a [| b rest'']]; [cbn; lia | cbn [length] in *; lia |].
  specialize (IH2 a b rest'' eq_refl).
  pose proof (dispatch_length (Z.land (byte_val s) 0xF0)
                (byte_val a) (byte_val b)).
  rewrite length_app. cbn [length]. lia.
Qed.

(** X2. A buffer in which no byte has the high nibble 8, 9 or B (data
    bytes, status bytes of other message types, system bytes) invokes no
    callback. *)
Theorem unsupported_bytes_invoke_nothing (data : list byte) :
  Forall (fun b => supported (Z.land (byte_val b) 0xF0) = false) data ->
  handle_packet has_cc None data = Some (Ok []).
Proof.
  intros Hall. cbn [handle_packet]. rewrite fallback_parser_scan.
  do 2 f_equal.
  induction Hall as [| b rest Hb _ IH]; [reflexivity |].
  by rewrite scan_skip.
Qed.

(** X4. Without [mido] (the fallback parser): a packet made of three-byte
    groups, each a supported status byte and the two bytes behind it, is
    dispatched group by group, in the order of the packet; and the
    callbacks of any buffer that starts with such a group are those of the
    group followed by those of the rest. *)
Theorem messages_dispatched_in_order :
  (forall (st a b : byte) (rest : list byte),
      supported (Z.land (byte_val st) 0xF0) = true ->
      exists calls,
        handle_packet has_cc None rest = Some (Ok calls)
        /\ handle_packet has_cc None (st :: a :: b :: rest)
           = Some (Ok (dispatch has_cc (Z.land (byte_val st) 0xF0)
                         (byte_val a) (byte_val b) ++ calls)))
  /\ (forall msgs : list (byte * byte * byte),
         Forall (fun m => supported (Z.land (byte_val m.1.1) 0xF0) = true)
           msgs ->
         handle_packet has_cc None
           (concat ((fun m => [m.1.1; m.1.2; m.2]) <$> msgs))
         = Some (Ok (concat
                       ((fun m => dispatch has_cc
                                    (Z.land (byte_val m.1.1) 0xF0)
                                    (byte_val m.1.2) (byte_val m.2))
                          <$> msgs)))).
Proof.
  split.
  - intros st a b rest Hsup. exists (scan has_cc rest).
    cbn [handle_packet]. rewrite !fallback_parser_scan.
    split; [reflexivity |]. by rewrite scan_message.
  - intros msgs Hall. cbn [handle_packet]. rewrite fallback_parser_scan.
    do 2 f_equal.
    induction Hall as [| [[st a] b] msgs Hsup _ IH]; [reflexivity |].
    cbn [fmap list_fmap concat fst snd app] in *.
    by rewrite scan_message, IH.
Qed.

End ParserStream.

Section ControlChange.
Import Py MidiHandler.

Lemma control_change_status (st : byte) :
  Z.land (byte_val st) 0xF0 = 0xB0 ->
  supported (Z.land (byte_val st) 0xF0) = true.
Proof. by intros ->. Qed.

(** X3. Without [mido] (the fallback parser): a handler without a
    control-change callback never invokes one, and still takes a
    control-change message as a whole: the two bytes behind its status byte
    are not scanned again. With the callback registered the message is
    forwarded with both bytes as they are. *)
Theorem control_change_needs_callback :
  (forall data : list byte,
      exists calls,
        handle_packet false None data = Some (Ok calls)
        /\ forall cc value : Z, control_change_cb cc value ∉ calls)
  /\ (forall (st a b : byte) (rest : list byte),
         Z.land (byte_val st) 0xF0 = 0xB0 ->
         handle_packet false None (st :: a :: b :: rest)
         = handle_packet false None rest)
  /\ (forall (st a b : byte) (rest : list byte),
         Z.land (byte_val st) 0xF0 = 0xB0 ->
         exists calls,
           handle_packet true None rest = Some (Ok calls)
           /\ handle_packet true None (st :: a :: b :: rest)
              = Some (Ok (control_change_cb (byte_val a) (byte_val b)
                            :: calls))).
Proof.
  split; [| split].
  - intros data. exists (scan false data).
    split; [apply fallback_parser_scan |].
    intros cc value Hc.
    destruct (scan_calls_positions false data _ Hc)
      as (i & st & a & b & _ & _ & _ & _ & _ & Hd).
    unfold dispatch in Hd. rewrite andb_false_r in Hd.
    repeat case_match;
      first [ by apply elem_of_nil in Hd
            | by apply list_elem_of_singleton in Hd ].
  - intros st a b rest Htyp. cbn [handle_packet].
    rewrite !fallback_parser_scan.
    rewrite (scan_message false st a b rest (control_change_status st Htyp)).
    by rewrite Htyp.
  - intros st a b rest Htyp. exists (scan true rest). cbn [handle_packet].
    rewrite !fallback_parser_scan. split; [reflexivity |].
    rewrite (scan_message true st a b rest (control_change_status st Htyp)).
    by rewrite Htyp.
Qed.

End ControlChange.

(** * Properties of the message builders *)

Section SenderLemmas.
Import Py MidiHandler Sender.

Lemma byte_of_int_Some (x : Z) :
  0 <= x < 256 -> exists b, byte_of_int x = Some b /\ byte_val b = x.
Proof.
  intros Hx. unfold byte_of_int.
  replace ((0 <=? x) && (x <? 256)) with true by (symmetry; lia).
  destruct (Byte.of_N (Z.to_N x)) as [b |] eqn:Hb.
  - exists b. split; [reflexivity |]. unfold byte_val.
    apply Byte.to_of_N in Hb. rewrite Hb. lia.
  - apply Byte.of_N_None_iff in Hb. lia.
Qed.

Lemma land_7F (x : Z) : Z.land x 0x7F = x mod 128.
Proof. change 0x7F with (Z.ones 7). by rewrite Z.land_ones. Qed.

Lemma land_0F (x : Z) : Z.land x 0x0F = x mod 16.
Proof. change 0x0F with (Z.ones 4). by rewrite Z.land_ones. Qed.

(** The status byte: the message type in the high nibble, the channel in
    the low one. *)
Lemma status_nibbles (base m : Z) :
  base = 0x80 \/ base = 0x90 -> 0 <= m < 16 ->
  Z.lor base m = base + m /\ Z.land (base + m) 0xF0 = base.
Proof.
  intros Hbase Hm.
  assert (Hcases : m = 0 \/ m = 1 \/ m = 2 \/ m = 3 \/ m = 4 \/ m = 5
                   \/ m = 6 \/ m = 7 \/ m = 8 \/ m = 9 \/ m = 10 \/ m = 11
                   \/ m = 12 \/ m = 13 \/ m = 14 \/ m = 15) by lia.
  destruct Hbase as [-> | ->];
    repeat (destruct Hcases as [-> | Hcases]; [by vm_compute |]);
    subst m; by vm_compute.
Qed.

(** The three bytes of a message built from any three integers. *)
Lemma make_message_bytes (base channel note velocity : Z) :
  base = 0x80 \/ base = 0x90 ->
  exists st a b : byte,
    bytes [Z.lor base (Z.land channel 0x0F); Z.land note 0x7F;
           Z.land velocity 0x7F] = Some [st; a; b]
    /\ byte_val st = base + channel mod 16
    /\ Z.land (byte_val st) 0xF0 = base
    /\ byte_val a = note mod 128
    /\ byte_val b = velocity mod 128.
Proof.
  intros Hbase. rewrite land_0F, !land_7F.
  pose proof (Z.mod_pos_bound channel 16 eq_refl) as Hch.
  pose proof (Z.mod_pos_bound note 128 eq_refl) as Hnote.
  pose proof (Z.mod_pos_bound velocity 128 eq_refl) as Hvel.
  destruct (status_nibbles base (channel mod 16) Hbase Hch) as [Hlor Hland].
  destruct (byte_of_int_Some (base + channel mod 16)) as (st & Hst & Hstv);
    [destruct Hbase as [-> | ->]; lia |].
  destruct (byte_of_int_Some (note mod 128)) as (a & Ha & Hav); [lia |].
  destruct (byte_of_int_Some (velocity mod 128)) as (b & Hb & Hbv); [lia |].
  exists st, a, b. rewrite Hlor. unfold bytes. cbn [mapM].
  rewrite Hst, Ha, Hb. cbn. rewrite Hstv.
  by repeat split.
Qed.

End SenderLemmas.

Section SenderClaims.
Import Py MidiHandler Sender.

Variable has_cc : bool.

(** X5. For all integers, negative or large ones too, [make_note_on] and
    [make_note_off] raise no [ValueError] and build three bytes: the status
    byte [0x90] (resp. [0x80]) plus the channel modulo 16, then the note and
    the velocity modulo 128. *)
Theorem make_note_well_formed (channel note velocity : Z) :
  (exists st a b : byte,
      make_note_on channel note velocity = Some [st; a; b]
      /\ byte_val st = 0x90 + channel mod 16
      /\ byte_val a = note mod 128 /\ byte_val b = velocity mod 128)
  /\ (exists st a b : byte,
         make_note_off channel note velocity = Some [st; a; b]
         /\ byte_val st = 0x80 + channel mod 16
         /\ byte_val a = note mod 128 /\ byte_val b = velocity mod 128).
Proof.
  split.
  - destruct (make_message_bytes 0x90 channel note velocity)
      as (st & a & b & Hbytes & Hst & _ & Ha & Hb); [by right |].
    by exists st, a, b.
  - destruct (make_message_bytes 0x80 channel note velocity)
      as (st & a & b & Hbytes & Hst & _ & Ha & Hb); [by left |].
    by exists st, a, b.
Qed.

(** X6. What the fallback parser (a handler without [mido]) makes of a
    built message, on any channel: a
    message of [make_note_on] invokes [note_on_cb] with the note and the
    velocity modulo 128, or [note_off_cb] when the velocity modulo 128 is 0;
    a message of [make_note_off] invokes [note_off_cb] with the note modulo
    128 and drops the release velocity. A note in [0, 127] with a velocity
    in [1, 127] arrives as it was sent. *)
Theorem built_message_round_trip (channel note velocity : Z) :
  (exists packet,
      make_note_on channel note velocity = Some packet
      /\ handle_packet has_cc None packet
         = Some (Ok (if 0 <? velocity mod 128
                     then [note_on_cb (note mod 128) (velocity mod 128)]
                     else [note_off_cb (note mod 128)])))
  /\ (exists packet,
         make_note_off channel note velocity = Some packet
         /\ handle_packet has_cc None packet
            = Some (Ok [note_off_cb (note mod 128)]))
  /\ (0 <= note <= 127 -> 1 <= velocity <= 127 ->
      exists packet,
        make_note_on channel note velocity = Some packet
        /\ handle_packet has_cc None packet
           = Some (Ok [note_on_cb note velocity])).
Proof.
  assert (Hon : exists packet,
             make_note_on channel note velocity = Some packet
             /\ handle_packet has_cc None packet
                = Some (Ok (if 0 <? velocity mod 128
                            then [note_on_cb (note mod 128)
                                    (velocity mod 128)]
                            else [note_off_cb (note mod 128)]))).
  { destruct (make_message_bytes 0x90 channel note velocity)
      as (st & a & b & Hbytes & _ & Htyp & Ha & Hb); [by right |].
    exists [st; a; b]. split; [exact Hbytes |].
    cbn [handle_packet]. rewrite fallback_parser_scan, scan_message
      by (by rewrite Htyp).
    rewrite Htyp, Ha, Hb. cbn [scan]. by rewrite app_nil_r. }
  split; [exact Hon |]. split.
  - destruct (make_message_bytes 0x80 channel note velocity)
      as (st & a & b & Hbytes & _ & Htyp & Ha & Hb); [by left |].
    exists [st; a; b]. split; [exact Hbytes |].
    cbn [handle_packet]. rewrite fallback_parser_scan, scan_message
      by (by rewrite Htyp).
    rewrite Htyp, Ha. cbn [scan]. by rewrite app_nil_r.
  - intros Hnote Hvel. destruct Hon as (packet & Hpacket & Hcalls).
    exists packet. split; [exact Hpacket |]. rewrite Hcalls.
    rewrite !Z.mod_small by lia.
    by replace (0 <? velocity) with true by (symmetry; lia).
Qed.

End SenderClaims.

Section SenderWitnesses.
Import Py MidiHandler Sender.

Lemma unsupported_bytes_invoke_nothing_witness :
  handle_packet true None [xc0; x05; xe0; x00; x40; xf8; x7f]
  = Some (Ok []).
Proof.
  apply unsupported_bytes_invoke_nothing.
  repeat constructor.
Defined.

Lemma messages_dispatched_in_order_witness :
  handle_packet true None [x99; x24; x64; x89; x24; x40]
  = Some (Ok [note_on_cb 36 100; note_off_cb 36]).
Proof.
  destruct (messages_dispatched_in_order true) as [_ Hmsgs].
  apply (Hmsgs [(x99, x24, x64); (x89, x24, x40)]).
  repeat constructor.
Defined.

Lemma control_change_needs_callback_witness :
  handle_packet false None [xb0; x90; x24; x7f]
  = handle_packet false None [x7f].
Proof.
  destruct control_change_needs_callback as (_ & Hskip & _).
  apply (Hskip xb0 x90 x24 [x7f]). reflexivity.
Defined.

Lemma built_message_round_trip_witness :
  exists packet,
    make_note_on 9 38 100 = Some packet
    /\ handle_packet false None packet = Some (Ok [note_on_cb 38 100]).
Proof.
  destruct (built_message_round_trip false 9 38 100) as (_ & _ & Hsame).
  apply Hsame; lia.
Defined.

End SenderWitnesses.

(** * Further properties of the playback engine *)

Section EngineTable.
Import AudioEngine.

Lemma note_on_active_other (note velocity : Z) (played : option nat)
    (e : engine) (n : Z) :
  n <> note -> _active (note_on note velocity played e).1 !! n = _active e !! n.
Proof.
  intros Hn. unfold note_on.
  destruct (_drum_samples e !! drum_type e note); [| reflexivity].
  destruct played; cbn [fst _active]; [| reflexivity].
  by apply lookup_insert_ne.
Qed.

Lemma note_off_active_other (note : Z) (e : engine) (n : Z) :
  n <> note -> _active (note_off note e).1 !! n = _active e !! n.
Proof.
  intros Hn. unfold note_off.
  destruct (_active e !! note); cbn [fst _active]; by apply lookup_delete_ne.
Qed.

Lemma note_off_active_same (note : Z) (e : engine) :
  _active (note_off note e).1 !! note = None.
Proof.
  unfold note_off.
  destruct (_active e !! note); cbn [fst _active]; apply lookup_delete_eq.
Qed.

Lemma column_stack_same (audio : list Z) :
  Forall (fun f => f.1 = f.2) (column_stack audio audio).
Proof.
  unfold column_stack. induction audio as [| x audio IH]; cbn; by constructor.
Qed.

Variable synth : Synthesis.
Variable rate : Z.

(** X7. In every state the engine reaches, triggering a note and releasing
    it fades out the channel that the trigger obtained and leaves the table
    as it was without that note; after two triggers of the note the release
    fades out the second channel only, and the first is no longer known to
    the engine. *)
Theorem trigger_then_release (ops : list op) (note v1 v2 : Z)
    (ch1 ch2 : nat) :
  let e := run ops (__init__ synth rate) in
  let e1 := (note_on note v1 (Some ch1) e).1 in
  let e2 := (note_on note v2 (Some ch2) e1).1 in
  (note_off note e1).2 = [call_fadeout ch1 100]
  /\ _active (note_off note e1).1 = delete note (_active e)
  /\ (note_off note e2).2 = [call_fadeout ch2 100]
  /\ _active (note_off note e2).1 = delete note (_active e)
  /\ (forall n : Z, _active (note_off note e2).1 !! n = Some ch1 ->
      _active e !! n = Some ch1).
Proof.
  intros e e1 e2.
  assert (He1 : _active e1 = <[note := ch1]> (_active e)).
  { subst e1. unfold note_on.
    destruct (reachable_sound synth rate ops note) as [sound Hsound].
    fold e in Hsound. by rewrite Hsound. }
  assert (He2 : _active e2 = <[note := ch2]> (_active e)).
  { assert (Hr : e1 = run (ops ++ [NoteOn note v1 (Some ch1)])
                        (__init__ synth rate))
      by (unfold run; by rewrite foldl_app).
    subst e2. unfold note_on.
    destruct (reachable_sound synth rate
                (ops ++ [NoteOn note v1 (Some ch1)]) note) as [sound Hsound].
    rewrite <- Hr in Hsound. rewrite Hsound. cbn [fst _active].
    by rewrite He1, insert_insert_eq. }
  assert (Hoff : forall (e' : engine) (ch : nat),
             _active e' = <[note := ch]> (_active e) ->
             (note_off note e').2 = [call_fadeout ch 100]
             /\ _active (note_off note e').1 = delete note (_active e)).
  { intros e' ch He'. unfold note_off.
    rewrite He', lookup_insert_eq. cbn [fst snd _active].
    by rewrite delete_insert_eq. }
  destruct (Hoff e1 ch1 He1) as [Hc1 Ha1].
  destruct (Hoff e2 ch2 He2) as [Hc2 Ha2].
  repeat (split; [assumption |]).
  intros n. rewrite Ha2. intros [_ H] % lookup_delete_Some. exact H.
Qed.

(** The gain a velocity of the MIDI range sets: the level
    [128 * velocity / 127] rounded down, over 128. *)
Lemma set_volume_in_range (velocity : Z) (sound : Sound) :
  0 <= velocity <= 127 ->
  volume (set_volume (velocity # 127) sound)
  = (128 * velocity / 127) # 128.
Proof.
  intros Hvel. unfold set_volume. cbn [Qnum Qden]. cbn zeta.
  rewrite Z.quot_div_nonneg by lia.
  replace (velocity * 128) with (128 * velocity) by lia.
  assert (0 <= 128 * velocity / 127 <= 128) as [Hlo Hhi].
  { split; [apply Z.div_pos; lia |].
    apply Z.div_le_upper_bound; lia. }
  replace (0 <=? 128 * velocity / 127) with true by (symmetry; lia).
  cbn [volume]. by rewrite Z.min_l.
Qed.

(** X8. Notes that resolve to the same drum type share one sound object:
    in every state the engine reaches, a trigger of one of them with a
    velocity in [0, 127] sets the gain of that sound to the level
    [128 * velocity / 127], rounded down, over 128, replacing the gain a
    trigger of the other had set before, whether or not either obtained a
    channel. *)
Theorem same_drum_type_shares_gain (ops : list op) (n1 n2 v1 v2 : Z)
    (p1 p2 : option nat) :
  let e := run ops (__init__ synth rate) in
  drum_type e n1 = drum_type e n2 ->
  0 <= v2 <= 127 ->
  volume <$> (_drum_samples (run [NoteOn n1 v1 p1; NoteOn n2 v2 p2] e)
                !! drum_type e n1)
  = Some ((128 * v2 / 127) # 128).
Proof.
  intros e Hsame Hv2.
  destruct (reachable_sound synth rate ops n1) as [sound Hsound].
  fold e in Hsound.
  unfold run. cbn [foldl step].
  set (e1 := (note_on n1 v1 p1 e).1).
  assert (Hd1 : drum_type e1 n2 = drum_type e n1).
  { pose proof (step_note_map e (NoteOn n1 v1 p1)) as Hmap.
    cbn [step] in Hmap. fold e1 in Hmap.
    rewrite Hsame. unfold drum_type. by rewrite Hmap. }
  assert (Hs1 : _drum_samples e1 !! drum_type e n1
                = Some (set_volume (v1 # 127) sound)).
  { subst e1. rewrite note_on_drum_samples, Hsound.
    apply lookup_insert_eq. }
  rewrite note_on_drum_samples, Hd1, Hs1, lookup_insert_eq.
  cbn. by rewrite set_volume_in_range.
Qed.

(** X9. In every state the engine reaches, the bank holds exactly the nine
    drum types, and the two channels of every frame of every sound are
    equal: the recipes stack one array twice, and no call changes it. *)
Theorem bank_is_duplicated_mono (ops : list op) :
  let e := run ops (__init__ synth rate) in
  (forall k : string, is_Some (_drum_samples e !! k) <-> k ∈ drum_types)
  /\ (forall (k : string) (sound : Sound),
         _drum_samples e !! k = Some sound ->
         Forall (fun f => f.1 = f.2) (frames sound)).
Proof.
  intros e.
  assert (Hinit : map_Forall
                    (fun k s => k ∈ drum_types
                                /\ Forall (fun f => f.1 = f.2) (frames s))
                    (_drum_samples (__init__ synth rate))).
  { cbn [__init__ _drum_samples]. unfold _generate_drum_samples.
    repeat (apply map_Forall_insert_2;
            [split; [unfold drum_types; repeat constructor
                    | apply column_stack_same] |]).
    apply map_Forall_empty. }
  assert (Hframes : forall k,
             frames <$> (_drum_samples e !! k)
             = frames <$> (_drum_samples (__init__ synth rate) !! k))
    by (intros k; apply run_frames).
  split.
  - intros k. split.
    + intros Hk. apply (fmap_is_Some frames) in Hk.
      rewrite Hframes in Hk. apply fmap_is_Some in Hk as [s0 Hs0].
      exact (proj1 (Hinit k s0 Hs0)).
    + intros Hk. apply (fmap_is_Some frames). rewrite Hframes.
      apply fmap_is_Some. by apply init_bank_complete.
  - intros k sound Hsound. specialize (Hframes k). rewrite Hsound in Hframes.
    destruct (_drum_samples (__init__ synth rate) !! k) as [s0 |] eqn:Hs0;
      [| discriminate Hframes].
    injection Hframes as ->. exact (proj2 (Hinit k s0 Hs0)).
Qed.

End EngineTable.

(** * Properties of the handler wired to the engine *)

Section MainLemmas.
Import Py MidiHandler AudioEngine Main.

Lemma calls_for_cons (n : Z) (c : Call) (calls : list Call) :
  calls_for n (c :: calls)
  = if decide (call_note c = Some n) then c :: calls_for n calls
    else calls_for n calls.
Proof. reflexivity. Qed.

(** Calls about other notes leave the entry of a note as it is. *)
Lemma perform_untouched (calls : list Call) :
  forall (plays : list (option nat)) (e : engine) (n : Z),
    calls_for n calls = [] ->
    _active (perform calls plays e) !! n = _active e !! n.
Proof.
  induction calls as [| c calls IH]; intros plays e n Hfor; [reflexivity |].
  rewrite calls_for_cons in Hfor.
  destruct (decide (call_note c = Some n)) as [| Hc]; [discriminate Hfor |].
  destruct c as [note velocity | note | cc value]; cbn [perform];
    rewrite IH by exact Hfor.
  - apply note_on_active_other. intros ->. by apply Hc.
  - apply note_off_active_other. intros ->. by apply Hc.
  - reflexivity.
Qed.

(** After a release that no trigger of the note follows, the note is not
    tracked. *)
Lemma perform_released (calls : list Call) :
  forall (plays : list (option nat)) (e : engine) (n : Z),
    last (calls_for n calls) = Some (note_off_cb n) ->
    _active (perform calls plays e) !! n = None.
Proof.
  induction calls as [| c calls IH]; intros plays e n Hlast;
    [discriminate Hlast |].
  rewrite calls_for_cons in Hlast.
  destruct (calls_for n calls) as [| c' rest] eqn:Hrest.
  - destruct (decide (call_note c = Some n)); [| discriminate Hlast].
    injection Hlast as ->. cbn [perform].
    rewrite perform_untouched by exact Hrest.
    apply note_off_active_same.
  - assert (Hlast' : last (c' :: rest) = Some (note_off_cb n)).
    { destruct (decide (call_note c = Some n)); [| exact Hlast].
      by rewrite last_cons_cons in Hlast. }
    rewrite <- Hrest in Hlast'.
    destruct c as [note velocity | note | cc value]; cbn [perform];
      by apply IH.
Qed.

Lemma dispatch_call_note (has_cc : bool) (typ a b : Z) (c : Call) (n : Z) :
  c ∈ dispatch has_cc typ a b -> call_note c = Some n -> n = a.
Proof.
  unfold dispatch. intros Hc Hn.
  repeat case_match;
    first [ by apply elem_of_nil in Hc
          | apply list_elem_of_singleton in Hc as ->; cbn in Hn; congruence ].
Qed.

(** Without [mido] every datagram is taken, and every note that reaches
    the engine is the value of a byte. *)
Lemma on_packets_notes (datagrams : list (list byte)) :
  exists calls,
    on_packets None datagrams = Some calls
    /\ forall (c : Call) (n : Z),
         c ∈ calls -> call_note c = Some n -> 0 <= n <= 255.
Proof.
  induction datagrams as [| data datagrams (calls & Hcalls & IH)].
  - exists []. split; [reflexivity |]. intros c n Hc. by apply elem_of_nil in Hc.
  - exists (scan false data ++ calls). cbn [on_packets handle_packet].
    rewrite fallback_parser_scan, Hcalls. split; [reflexivity |].
    intros c n [Hc | Hc] % elem_of_app Hn; [| by eapply IH].
    destruct (scan_calls_positions false data c Hc)
      as (i & st & a & b & _ & _ & _ & _ & _ & Hd).
    rewrite (dispatch_call_note _ _ _ _ _ _ Hd Hn). apply byte_val_range.
Qed.

End MainLemmas.

Section MainClaims.
Import Py MidiHandler AudioEngine Main.

(** X10. Whatever the mixer answers and whatever state the engine is in:
    after a sequence of callbacks in which the last one about a note is a
    [note_off], the note is not tracked; and a sequence with no callback
    about a note leaves its entry as it was. *)
Theorem released_note_is_untracked (calls : list Call)
    (plays : list (option nat)) (e : engine) (n : Z) :
  (last (calls_for n calls) = Some (note_off_cb n) ->
   _active (perform calls plays e) !! n = None)
  /\ (calls_for n calls = [] ->
      _active (perform calls plays e) !! n = _active e !! n).
Proof.
  split; [apply perform_released | apply perform_untouched].
Qed.

(** X11. Without [mido], whatever datagrams arrive and whatever the mixer
    answers, every note the engine tracks after them is the value of a
    byte, so the table of an engine started by [__init__] never holds more
    than 256 entries. *)
Theorem table_bounded_by_bytes (synth : Synthesis) (rate : Z)
    (datagrams : list (list byte)) :
  exists calls,
    on_packets None datagrams = Some calls
    /\ forall plays : list (option nat),
         let e := perform calls plays (__init__ synth rate) in
         (forall n : Z, is_Some (_active e !! n) -> 0 <= n <= 255)
         /\ (size (_active e) <= 256)%nat.
Proof.
  destruct (on_packets_notes datagrams) as (calls & Hcalls & Hnotes).
  exists calls. split; [exact Hcalls |]. intros plays e.
  assert (Hrange : forall n : Z, is_Some (_active e !! n) -> 0 <= n <= 255).
  { intros n Hn.
    destruct (calls_for n calls) as [| c rest] eqn:Hfor.
    - subst e. rewrite perform_untouched in Hn by exact Hfor.
      cbn [__init__ _active] in Hn. rewrite lookup_empty in Hn.
      by destruct Hn.
    - assert (Hc : c ∈ calls_for n calls) by (rewrite Hfor; left).
      apply list_elem_of_filter in Hc as [Hnote Hc].
      exact (Hnotes c n Hc Hnote). }
  split; [exact Hrange |].
  rewrite <- size_dom.
  transitivity (size (list_to_set (C := gset Z) (seqZ 0 256))).
  - apply subseteq_size. intros n Hn.
    apply elem_of_dom in Hn. apply Hrange in Hn.
    apply elem_of_list_to_set, elem_of_seqZ. lia.
  - rewrite size_list_to_set by apply NoDup_seqZ.
    by rewrite length_seqZ.
Qed.

End MainClaims.

Section MainWitnesses.
Import Py MidiHandler AudioEngine Main.

Lemma released_note_is_untracked_witness :
  _active (perform [note_on_cb 36 100; note_on_cb 38 90; note_off_cb 36]
             [Some 0%nat; Some 1%nat]
             (__init__ example_synthesis 44100)) !! 36 = None
  /\ _active (perform [note_on_cb 36 100; note_on_cb 38 90; note_off_cb 36]
                [Some 0%nat; Some 1%nat]
                (__init__ example_synthesis 44100)) !! 42
     = _active (__init__ example_synthesis 44100) !! 42.
Proof.
  split.
  - destruct (released_note_is_untracked
                [note_on_cb 36 100; note_on_cb 38 90; note_off_cb 36]
                [Some 0%nat; Some 1%nat]
                (__init__ example_synthesis 44100) 36) as [Hreleased _].
    apply Hreleased. reflexivity.
  - destruct (released_note_is_untracked
                [note_on_cb 36 100; note_on_cb 38 90; note_off_cb 36]
                [Some 0%nat; Some 1%nat]
                (__init__ example_synthesis 44100) 42) as [_ Huntouched].
    apply Huntouched. reflexivity.
Defined.

End MainWitnesses.

(** * Properties of the sender scripts *)

Section ScriptLemmas.
Import Py MidiHandler AudioEngine Sender Script Main.

Lemma and_then_ok (r1 r2 : Run) :
  r1.2 = None -> and_then r1 r2 = (r1.1 ++ r2.1, r2.2).
Proof. intros H. unfold and_then. by rewrite H. Qed.

Lemma and_then_raised (r1 r2 : Run) (x : exn) :
  r1.2 = Some x -> and_then r1 r2 = r1.
Proof. intros H. unfold and_then. by rewrite H. Qed.

(** A loop whose iterations all complete runs them all. *)
Lemma for_each_ok {A : Type} (f : A -> Run) (l : list A) :
  Forall (fun x => (f x).2 = None) l ->
  (for_each f l).2 = None
  /\ (for_each f l).1 = concat ((fun x => (f x).1) <$> l).
Proof.
  induction 1 as [| x l Hx _ [IH2 IH1]]; [done |].
  cbn [for_each foldr]. fold (for_each f l).
  rewrite (and_then_ok _ _ Hx). cbn [fst snd fmap list_fmap concat].
  by rewrite IH1.
Qed.

Lemma sent_app (l1 l2 : list Event) : sent (l1 ++ l2) = sent l1 ++ sent l2.
Proof. apply omap_app. Qed.

Lemma sent_concat (ls : list (list Event)) :
  sent (concat ls) = concat (sent <$> ls).
Proof.
  induction ls as [| l ls IH]; [reflexivity |].
  cbn [concat fmap list_fmap]. by rewrite sent_app, IH.
Qed.

(** Without [mido] the callbacks of a sequence of datagrams are those of
    each datagram, one after the other. *)
Lemma on_packets_scan (datagrams : list (list byte)) :
  on_packets None datagrams = Some (concat (scan false <$> datagrams)).
Proof.
  induction datagrams as [| data datagrams IH]; [reflexivity |].
  cbn [on_packets handle_packet]. by rewrite fallback_parser_scan, IH.
Qed.

Lemma calls_for_app (n : Z) (c1 c2 : list Call) :
  calls_for n (c1 ++ c2) = calls_for n c1 ++ calls_for n c2.
Proof. apply filter_app. Qed.

Lemma balanced_app (c1 c2 : list Call) :
  balanced c1 -> balanced c2 -> balanced (c1 ++ c2).
Proof.
  intros H1 H2 n. rewrite calls_for_app.
  destruct (H2 n) as [-> | Hlast2].
  - rewrite app_nil_r. apply H1.
  - right. rewrite last_app. by rewrite Hlast2.
Qed.

Lemma balanced_concat (cs : list (list Call)) :
  Forall balanced cs -> balanced (concat cs).
Proof.
  induction 1 as [| c cs Hc _ IH]; [by left |].
  cbn [concat]. by apply balanced_app.
Qed.

Lemma balancedb_sound (calls : list Call) :
  balancedb calls = true -> balanced calls.
Proof.
  intros Hb n.
  destruct (calls_for n calls) as [| c rest] eqn:Hfor; [by left |].
  right. rewrite <- Hfor.
  assert (Hc : c ∈ calls_for n calls) by (rewrite Hfor; left).
  apply list_elem_of_filter in Hc as [Hnote Hc].
  unfold balancedb in Hb. rewrite forallb_forall in Hb.
  apply list_elem_of_In in Hc. specialize (Hb c Hc).
  rewrite Hnote in Hb. by apply bool_decide_eq_true in Hb.
Qed.

(** What balanced callbacks leave of the table of active voices. *)
Lemma perform_balanced (calls : list Call) (plays : list (option nat))
    (e : engine) :
  balanced calls ->
  (forall n : Z,
      _active (perform calls plays e) !! n = None
      \/ _active (perform calls plays e) !! n = _active e !! n)
  /\ (_active e = ∅ -> _active (perform calls plays e) = ∅).
Proof.
  intros Hbal.
  assert (Hn : forall n : Z,
             _active (perform calls plays e) !! n = None
             \/ _active (perform calls plays e) !! n = _active e !! n).
  { intros n. destruct (Hbal n) as [Hnone | Hlast].
    - right. by apply perform_untouched.
    - left. by apply perform_released. }
  split; [exact Hn |].
  intros Hempty. apply map_eq. intros n. rewrite lookup_empty.
  destruct (Hn n) as [H | H]; [exact H |].
  by rewrite H, Hempty, lookup_empty.
Qed.

End ScriptLemmas.

Section CaravanClaims.
Import Py MidiHandler AudioEngine Sender Script Main Caravan.

(** One bar at a positive tempo: it completes, and the callbacks of its
    datagrams release every note they trigger. *)
Lemma caravan_bar (p : positive) (bar_count : Z) :
  let eighth := (60 / inject_Z (Z.pos p) / 2)%Q in
  let sixteenth := (60 / inject_Z (Z.pos p) / 4)%Q in
  (play_bar eighth sixteenth bar_count).2 = None
  /\ balanced (concat (scan false
                         <$> sent (play_bar eighth sixteenth bar_count).1)).
Proof.
  cbn zeta. unfold play_bar.
  destruct (bar_count mod 8 =? 0); [| destruct (bar_count mod 2 =? 1)];
    (split; [by vm_compute | apply balancedb_sound; by vm_compute]).
Qed.

Lemma caravan_bars_balanced (p : positive) (bar_counts : list Z) :
  balanced
    (concat
       (scan false
          <$> sent (concat
                      ((fun k => (play_bar (60 / inject_Z (Z.pos p) / 2)
                                    (60 / inject_Z (Z.pos p) / 4) k).1)
                         <$> bar_counts)))).
Proof.
  induction bar_counts as [| k ks IH]; [by left |].
  cbn [fmap list_fmap concat].
  rewrite sent_app, fmap_app, concat_app.
  apply balanced_app; [apply (caravan_bar p k) | exact IH].
Qed.

(** X12. At a positive tempo (below [2 ^ 1023]) any number of bars of the Caravan pattern runs
    without an exception; and when its datagrams arrive in order at a
    handler without [mido] wired to an engine, then, whatever the state of
    the engine and the answers of the mixer, every note is afterwards
    untracked or tracked as before: the pattern leaves no voice of its own
    in the table. *)
Theorem caravan_releases_its_notes (tempo_bpm : Z) (bars : nat)
    (plays : list (option nat)) (e : engine) :
  0 < tempo_bpm < 2 ^ 1023 ->
  (play_caravan_pattern tempo_bpm bars).2 = None
  /\ exists calls,
       on_packets None (sent (play_caravan_pattern tempo_bpm bars).1)
       = Some calls
       /\ (forall n : Z,
              _active (perform calls plays e) !! n = None
              \/ _active (perform calls plays e) !! n = _active e !! n)
       /\ (_active e = ∅ -> _active (perform calls plays e) = ∅).
Proof.
  intros [Htempo _]. destruct tempo_bpm as [| p | p]; [done | | done].
  unfold play_caravan_pattern. cbn [Z.eqb].
  destruct (for_each_ok
              (play_bar (60 / inject_Z (Z.pos p) / 2)
                 (60 / inject_Z (Z.pos p) / 4))
              (seqZ 1 (Z.of_nat bars))) as [Hok Hevents].
  { apply Forall_forall. intros k _. apply (caravan_bar p k). }
  cbn zeta. split; [exact Hok |].
  eexists. split; [apply on_packets_scan |].
  apply perform_balanced. rewrite Hevents. apply caravan_bars_balanced.
Qed.

(** X13. With tempo 0 [play_caravan_pattern] raises [ZeroDivisionError]
    before it sends anything. With a negative tempo (above [- 2 ^ 1023]) it
    sends the two
    note-ons of the first step (kick 36 and hi-hat 42) and then stops with
    the [ValueError] of [time.sleep]: no note-off is sent. *)
Theorem caravan_bad_tempo (bars : nat) :
  play_caravan_pattern 0 bars = ([], Some ZeroDivisionError)
  /\ (forall tempo_bpm : Z,
         - 2 ^ 1023 < tempo_bpm < 0 ->
         play_caravan_pattern tempo_bpm (S bars)
         = ([sendto [x90; x24; x6e]; sendto [x90; x2a; x55]],
            Some ValueError)).
Proof.
  split; [reflexivity |].
  intros tempo_bpm [_ Htempo].
  destruct tempo_bpm as [| p | p]; [done | done |].
  unfold play_caravan_pattern. cbn [Z.eqb].
  rewrite seqZ_cons by lia. cbn [for_each foldr].
  by apply and_then_raised with (x := ValueError).
Qed.

End CaravanClaims.

Section FakeMidiClaims.
Import Py MidiHandler AudioEngine Sender Script Main FakeMidi.

(** One pass over the drums with a pause that is not negative. *)
Lemma fake_midi_pass (interval : Q) :
  Qle_bool 0 interval = true ->
  (for_each (play_drum interval) drum_pattern).2 = None
  /\ balanced (concat
                 (scan false
                    <$> sent (for_each (play_drum interval) drum_pattern).1)).
Proof.
  intros Hpause.
  unfold for_each, drum_pattern, play_drum. cbn [foldr].
  unfold time_sleep. rewrite Hpause.
  split; [by vm_compute | apply balancedb_sound; by vm_compute].
Qed.

Lemma fake_midi_passes_balanced (interval : Q) (passes : list nat) :
  Qle_bool 0 interval = true ->
  balanced
    (concat
       (scan false
          <$> sent (concat
                      ((fun _ : nat =>
                          (for_each (play_drum interval) drum_pattern).1)
                         <$> passes)))).
Proof.
  intros Hpause. induction passes as [| k ks IH]; [by left |].
  cbn [fmap list_fmap concat].
  rewrite sent_app, fmap_app, concat_app.
  apply balanced_app; [apply (fake_midi_pass interval Hpause) | exact IH].
Qed.

(** X14. With a pause from 0 to [2 ^ 32] seconds, any number of passes of [run]
    over its drums completes without an exception, and its datagrams,
    arriving in order at a handler without [mido] wired to an engine, leave
    every note untracked or tracked as before, whatever the state of the
    engine and the answers of the mixer. With a negative pause (down to
    [- 2 ^ 32]) [run] sends
    the note-on of the first drum (kick 36) and stops with the [ValueError]
    of [time.sleep]: the note-off is not sent. *)
Theorem fake_midi_releases_its_notes (interval : Q) (passes : nat)
    (plays : list (option nat)) (e : engine) :
  ((0 <= interval <= 2 ^ 32)%Q ->
   (run interval passes).2 = None
   /\ exists calls,
        on_packets None (sent (run interval passes).1) = Some calls
        /\ (forall n : Z,
               _active (perform calls plays e) !! n = None
               \/ _active (perform calls plays e) !! n = _active e !! n)
        /\ (_active e = ∅ -> _active (perform calls plays e) = ∅))
  /\ ((- 2 ^ 32 <= interval < 0)%Q ->
      run interval (S passes) = ([sendto [x90; x24; x64]], Some ValueError)).
Proof.
  split.
  - intros [Hpause % Qle_bool_iff _]. unfold run.
    destruct (for_each_ok
                (fun _ : nat => for_each (play_drum interval) drum_pattern)
                (seq 0 passes)) as [Hok Hevents].
    { apply Forall_forall. intros k _. apply (fake_midi_pass interval Hpause). }
    split; [exact Hok |].
    eexists. split; [apply on_packets_scan |].
    apply perform_balanced. rewrite Hevents.
    by apply fake_midi_passes_balanced.
  - intros [_ Hneg].
    assert (Hpause : Qle_bool 0 interval = false).
    { destruct (Qle_bool 0 interval) eqn:H; [| reflexivity].
      apply Qle_bool_iff in H. exfalso. by apply (Qlt_not_le _ _ Hneg). }
    assert (Hpass : for_each (play_drum interval) drum_pattern
                    = ([sendto [x90; x24; x64]], Some ValueError)).
    { unfold for_each, drum_pattern, play_drum. cbn [foldr].
      unfold time_sleep. rewrite Hpause. reflexivity. }
    unfold run. cbn [seq]. unfold for_each at 1. cbn [foldr].
    by rewrite Hpass.
Qed.

End FakeMidiClaims.

Section ScriptWitnesses.
Import Py MidiHandler AudioEngine Sender Script Main.

Lemma caravan_releases_its_notes_witness :
  (Caravan.play_caravan_pattern 180 2).2 = None
  /\ exists calls,
       on_packets None (sent (Caravan.play_caravan_pattern 180 2).1)
       = Some calls
       /\ (forall n : Z,
              _active (perform calls (repeat (Some 5%nat) 40)
                         (note_on 60 90 (Some 7%nat)
                            (__init__ example_synthesis 44100)).1)
                !! n = None
              \/ _active (perform calls (repeat (Some 5%nat) 40)
                            (note_on 60 90 (Some 7%nat)
                               (__init__ example_synthesis 44100)).1)
                   !! n
                 = _active (note_on 60 90 (Some 7%nat)
                              (__init__ example_synthesis 44100)).1 !! n)
       /\ (_active (note_on 60 90 (Some 7%nat)
                      (__init__ example_synthesis 44100)).1 = ∅ ->
           _active (perform calls (repeat (Some 5%nat) 40)
                      (note_on 60 90 (Some 7%nat)
                         (__init__ example_synthesis 44100)).1)
           = ∅).
Proof.
  apply (caravan_releases_its_notes 180 2 (repeat (Some 5%nat) 40)
           (note_on 60 90 (Some 7%nat)
              (__init__ example_synthesis 44100)).1).
  split; reflexivity.
Defined.

End ScriptWitnesses.

(** * The handler with callbacks that may raise *)

Section RaisingLemmas.
Import Py MidiHandler.

Variable has_cc : bool.
Variable raises : nat -> Call -> option Raising.raised.

Lemma invoke_app (c1 c2 done : list Call) :
  Raising.invoke raises (c1 ++ c2) done
  = match (Raising.invoke raises c1 done).2 with
    | Some _ => Raising.invoke raises c1 done
    | None => Raising.invoke raises c2 (Raising.invoke raises c1 done).1
    end.
Proof.
  revert done. induction c1 as [| c c1 IH]; intros done; [reflexivity |].
  cbn [app Raising.invoke].
  destruct (raises (length done) c); [reflexivity | apply IH].
Qed.

(** When no invocation raises, all are made. *)
Lemma invoke_all (calls done : list Call) :
  (forall (k : nat) (c : Call),
      calls !! k = Some c -> raises (length done + k) c = None) ->
  Raising.invoke raises calls done = (done ++ calls, None).
Proof.
  revert done. induction calls as [| c calls IH]; intros done Hno.
  - by rewrite app_nil_r.
  - cbn [Raising.invoke].
    pose proof (Hno 0%nat c eq_refl) as H0. rewrite Nat.add_0_r in H0.
    rewrite H0, IH; [by rewrite <- app_assoc |].
    intros k c' Hk. rewrite length_app. cbn [length].
    replace (length done + 1 + k)%nat with (length done + S k)%nat by lia.
    by apply Hno.
Qed.

(** The first invocation that raises is the last one made. *)
Lemma invoke_first_raise (calls done : list Call) (j : nat) (c : Call)
    (x : Raising.raised) :
  calls !! j = Some c ->
  raises (length done + j) c = Some x ->
  (forall (k : nat) (c' : Call),
      (k < j)%nat -> calls !! k = Some c' ->
      raises (length done + k) c' = None) ->
  Raising.invoke raises calls done = (done ++ take (S j) calls, Some x).
Proof.
  revert done j.
  induction calls as [| c0 calls IH]; intros done j Hj Hraise Hbefore;
    [discriminate Hj |].
  cbn [Raising.invoke]. destruct j as [| j].
  - injection Hj as ->. rewrite Nat.add_0_r in Hraise. by rewrite Hraise.
  - pose proof (Hbefore 0%nat c0 ltac:(lia) eq_refl) as H0.
    rewrite Nat.add_0_r in H0. rewrite H0.
    rewrite (IH (done ++ [c0]) j Hj).
    + cbn [take]. by rewrite <- app_assoc.
    + rewrite length_app. cbn [length].
      by replace (length done + 1 + j)%nat with (length done + S j)%nat
        by lia.
    + intros k c' Hk Hc'. rewrite length_app. cbn [length].
      replace (length done + 1 + k)%nat with (length done + S k)%nat by lia.
      apply Hbefore; [lia | exact Hc'].
Qed.

Lemma mido_loop_invoke (msgs : list MidoMessage) (done : list Call) :
  Raising.mido_loop has_cc raises msgs done
  = Raising.invoke raises (concat (_handle_mido_message has_cc <$> msgs))
      done.
Proof.
  revert done. induction msgs as [| msg msgs IH]; intros done; [reflexivity |].
  cbn [Raising.mido_loop fmap list_fmap concat]. rewrite invoke_app.
  destruct (Raising.invoke raises (_handle_mido_message has_cc msg) done).2;
    [reflexivity | apply IH].
Qed.

Lemma while_loop_invoke (fuel : nat) (data : list byte) :
  forall (i : nat) (done : list Call),
    (length data - i <= fuel)%nat ->
    Raising.while_loop has_cc raises fuel data i done
    = Some (Raising.invoke raises (scan has_cc (drop i data)) done).
Proof.
  induction fuel as [| fuel IH]; intros i done Hfuel;
    cbn [Raising.while_loop];
    destruct (i <? length data)%nat eqn:Hi;
    try (apply Nat.ltb_ge in Hi; by rewrite drop_ge);
    apply Nat.ltb_lt in Hi; [lia |].
  destruct (loop_body_scan has_cc data i Hi)
    as (i' & calls & -> & Hi' & _ & ->).
  rewrite invoke_app.
  destruct (Raising.invoke raises calls done).2; [reflexivity |].
  apply IH. lia.
Qed.

End RaisingLemmas.

Section RaisingClaims.
Import Py MidiHandler.

Variable has_cc : bool.
Variable raises : nat -> Call -> option Raising.raised.

(** X15. Without [mido], with callbacks that may raise: when none of the
    callbacks of a packet raises, all are invoked and [handle_packet]
    returns; when one raises, it is the last one invoked, what it raised
    leaves [handle_packet], and the messages behind it in the packet are
    not dispatched. *)
Theorem callback_exception_drops_rest (data : list byte) :
  exists calls,
    handle_packet has_cc None data = Some (Ok calls)
    /\ ((forall (k : nat) (c : Call),
            calls !! k = Some c -> raises k c = None) ->
        Raising.handle_packet has_cc raises None data = Some (calls, None))
    /\ (forall (j : nat) (c : Call) (x : Raising.raised),
           calls !! j = Some c ->
           raises j c = Some x ->
           (forall (k : nat) (c' : Call),
               (k < j)%nat -> calls !! k = Some c' -> raises k c' = None) ->
           Raising.handle_packet has_cc raises None data
           = Some (take (S j) calls, Some x)).
Proof.
  exists (scan has_cc data). split; [apply fallback_parser_scan |].
  cbn [Raising.handle_packet]. rewrite while_loop_invoke by lia.
  rewrite drop_0. split.
  - intros Hno. by rewrite invoke_all.
  - intros j c x Hj Hraise Hbefore.
    by rewrite (invoke_first_raise raises _ [] j c x).
Qed.

(** X16. With [mido] parsing the packet, when a callback raises once, at
    its [j]-th invocation in the [mido] branch: if what it raises is an
    [Exception], the [except] clause swallows it and the fallback parser
    dispatches the whole packet again, so that the invocations are those of
    the [mido] branch up to the failing one followed by all callbacks of
    the fallback parser, and [handle_packet] returns; if it is another
    [BaseException] ([KeyboardInterrupt], [SystemExit]), it leaves
    [handle_packet] at once and nothing is dispatched again. *)
Theorem mido_callback_exception_redispatches (parse_all : MidoParser)
    (data : list byte) (msgs : list MidoMessage) (j : nat) (c : Call)
    (x : Raising.raised) :
  parse_all data = Some msgs ->
  concat (_handle_mido_message has_cc <$> msgs) !! j = Some c ->
  raises j c = Some x ->
  (forall (k : nat) (c' : Call), k <> j -> raises k c' = None) ->
  exists calls,
    handle_packet has_cc None data = Some (Ok calls)
    /\ Raising.handle_packet has_cc raises (Some parse_all) data
       = Some
           match x with
           | Raising.exception =>
               (take (S j) (concat (_handle_mido_message has_cc <$> msgs))
                  ++ calls, None)
           | Raising.base_exception =>
               (take (S j) (concat (_handle_mido_message has_cc <$> msgs)),
                Some Raising.base_exception)
           end.
Proof.
  intros Hparse Hj Hraise Honce.
  exists (scan has_cc data). split; [apply fallback_parser_scan |].
  cbn [Raising.handle_packet]. rewrite Hparse, mido_loop_invoke.
  rewrite (invoke_first_raise raises _ [] j c x Hj Hraise)
    by (intros k c' Hk _; apply Honce; cbn; lia).
  cbn [fst snd app]. destruct x; [| reflexivity].
  rewrite while_loop_invoke by lia. rewrite drop_0.
  rewrite invoke_all; [reflexivity |].
  intros k c' _. apply Honce.
  pose proof (lookup_lt_Some _ _ _ Hj) as Hlt.
  rewrite length_take. lia.
Qed.

End RaisingClaims.

Section RaisingWitnesses.
Import Py MidiHandler.

Lemma callback_exception_drops_rest_witness :
  Raising.handle_packet true
    (fun k _ => if (k =? 1)%nat then Some Raising.exception else None) None
    [x90; x24; x64; x90; x26; x50; x80; x24; x00]
  = Some ([note_on_cb 36 100; note_on_cb 38 80], Some Raising.exception).
Proof.
  destruct (callback_exception_drops_rest true
              (fun k _ => if (k =? 1)%nat then Some Raising.exception
                          else None)
              [x90; x24; x64; x90; x26; x50; x80; x24; x00])
    as (calls & Hcalls & _ & Hraise).
  vm_compute in Hcalls. injection Hcalls as <-.
  apply (Hraise 1%nat (note_on_cb 38 80) Raising.exception);
    [reflexivity | reflexivity |].
  intros k c' Hk _. destruct k; [reflexivity | lia].
Defined.

Lemma mido_callback_exception_redispatches_witness :
  (exists calls,
      handle_packet false None [x90; x24; x64] = Some (Ok calls)
      /\ Raising.handle_packet false
           (fun k _ => if (k =? 0)%nat then Some Raising.exception else None)
           (Some (fun _ => Some [ {| msg_type := "note_on"; msg_note := 36;
                                     msg_velocity := 100; msg_control := 0;
                                     msg_value := 0 |} ]))
           [x90; x24; x64]
         = Some (take 1 [note_on_cb 36 100] ++ calls, None))
  /\ (exists calls,
         handle_packet false None [x90; x24; x64] = Some (Ok calls)
         /\ Raising.handle_packet false
              (fun k _ => if (k =? 0)%nat then Some Raising.base_exception
                          else None)
              (Some (fun _ => Some [ {| msg_type := "note_on"; msg_note := 36;
                                        msg_velocity := 100; msg_control := 0;
                                        msg_value := 0 |} ]))
              [x90; x24; x64]
            = Some (take 1 [note_on_cb 36 100],
                    Some Raising.base_exception)).
Proof.
  split.
  - apply (mido_callback_exception_redispatches false
             (fun k _ => if (k =? 0)%nat then Some Raising.exception
                         else None)
             (fun _ => Some [ {| msg_type := "note_on"; msg_note := 36;
                                 msg_velocity := 100; msg_control := 0;
                                 msg_value := 0 |} ])
             [x90; x24; x64]
             [ {| msg_type := "note_on"; msg_note := 36;
                  msg_velocity := 100; msg_control := 0; msg_value := 0 |} ]
             0%nat (note_on_cb 36 100) Raising.exception);
      [reflexivity | reflexivity | reflexivity |].
    intros k c' Hk. destruct k; [lia | reflexivity].
  - apply (mido_callback_exception_redispatches false
             (fun k _ => if (k =? 0)%nat then Some Raising.base_exception
                         else None)
             (fun _ => Some [ {| msg_type := "note_on"; msg_note := 36;
                                 msg_velocity := 100; msg_control := 0;
                                 msg_value := 0 |} ])
             [x90; x24; x64]
             [ {| msg_type := "note_on"; msg_note := 36;
                  msg_velocity := 100; msg_control := 0; msg_value := 0 |} ]
             0%nat (note_on_cb 36 100) Raising.base_exception);
      [reflexivity | reflexivity | reflexivity |].
    intros k c' Hk. destruct k; [lia | reflexivity].
Defined.

End RaisingWitnesses.

(** * Properties of the display tables *)

Section NoteNames.
Import UI.

Lemma pretty_N_go_ne_hash (x : N) (s s' : string) :
  s <> String "#"%char s' -> pretty_N_go x s <> String "#"%char s'.
Proof.
  revert s. induction (N.lt_wf_0 x) as [x _ IH]; intros s Hs.
  assert (x = 0 \/ 0 < x)%N as [-> | Hx] by lia.
  - by rewrite pretty_N_go_0.
  - rewrite pretty_N_go_step by done. apply IH.
    { by apply N.div_lt. }
    unfold pretty_N_char. by repeat case_match.
Qed.

(** A decimal numeral does not start with a sharp sign. *)
Lemma pretty_Z_not_hash (z : Z) (s : string) : pretty z <> String "#"%char s.
Proof.
  destruct z as [| p | p]; [done | | done].
  unfold pretty, pretty_Z, pretty, pretty_positive, pretty, pretty_N.
  case_decide; [done |]. by apply pretty_N_go_ne_hash.
Qed.

(** The pitch class that [_note_to_name] looks up. *)
Lemma note_name_cases (note : Z) :
  exists name,
    list_getitem note_names (note mod 12) = Some name
    /\ note_names !! Z.to_nat (note mod 12) = Some name.
Proof.
  pose proof (Z.mod_pos_bound note 12 eq_refl) as Hmod.
  unfold list_getitem.
  replace (0 <=? note mod 12) with true by (symmetry; lia).
  destruct (lookup_lt_is_Some_2 note_names (Z.to_nat (note mod 12)))
    as [name Hname]; [cbn [length note_names]; lia |].
  by exists name.
Qed.

(** Two pitch-class names followed by numerals are equal only when the
    names are and the numerals are. *)
Lemma note_name_inj (i1 i2 : nat) (name1 name2 s1 s2 : string) :
  note_names !! i1 = Some name1 -> note_names !! i2 = Some name2 ->
  (forall s, s1 <> String "#"%char s) ->
  (forall s, s2 <> String "#"%char s) ->
  name1 +:+ s1 = name2 +:+ s2 -> i1 = i2 /\ s1 = s2.
Proof.
  intros H1 H2 Hs1 Hs2 Heq.
  unfold note_names in H1, H2.
  repeat (destruct i1 as [| i1]; [injection H1 as <- |]);
    [.. | by cbn in H1];
    (repeat (destruct i2 as [| i2]; [injection H2 as <- |]);
     [.. | by cbn in H2]);
    cbn in Heq; simplify_eq;
    first [ done | by edestruct Hs1 | by edestruct Hs2 ].
Qed.

(** X17. [_note_to_name] raises no [IndexError] for any integer, negative
    ones included, and names different notes differently. *)
Theorem note_names_distinct :
  (forall note : Z,
      exists name,
        name ∈ note_names
        /\ _note_to_name note = Some (name +:+ pretty (note / 12 - 1)))
  /\ (forall n1 n2 : Z, _note_to_name n1 = _note_to_name n2 -> n1 = n2).
Proof.
  split.
  - intros note. destruct (note_name_cases note) as (name & Hget & Hlook).
    exists name. split; [by eapply list_elem_of_lookup_2 |].
    unfold _note_to_name. by rewrite Hget.
  - intros n1 n2 Heq.
    destruct (note_name_cases n1) as (name1 & Hget1 & Hlook1).
    destruct (note_name_cases n2) as (name2 & Hget2 & Hlook2).
    unfold _note_to_name in Heq. rewrite Hget1, Hget2 in Heq.
    cbn in Heq. injection Heq as Heq.
    destruct (note_name_inj _ _ _ _ _ _ Hlook1 Hlook2
                (pretty_Z_not_hash _) (pretty_Z_not_hash _) Heq)
      as [Hidx Hoct].
    apply (inj pretty) in Hoct.
    pose proof (Z.mod_pos_bound n1 12 eq_refl).
    pose proof (Z.mod_pos_bound n2 12 eq_refl).
    rewrite (Z.div_mod n1 12), (Z.div_mod n2 12) by lia. lia.
Qed.

End NoteNames.

Section DisplayTables.
Import AudioEngine UI.

Variable synth : Synthesis.
Variable rate : Z.

(** X18. The display and the engine know the same seventeen notes: in every
    state the engine reaches, [note_to_drum] has an entry for a note exactly
    when the note map of the engine has one. For every such note but 45 the
    piece the display animates is the drum type the engine plays, the two
    hi-hat types being one piece; for note 45 the display animates the low
    tom while the engine plays the mid tom. *)
Theorem display_and_engine_notes (ops : list op) (note : Z) :
  let e := run ops (__init__ synth rate) in
  (is_Some (note_to_drum !! note) <-> note ∈ dom (_note_map e))
  /\ (forall (name : string) (piece : drum_object),
         note_to_drum !! note = Some (name, piece) ->
         (note <> 45 ->
          drum_type e note = name
          \/ (name = "hihat"%string
              /\ (drum_type e note = "hihat_closed"%string
                  \/ drum_type e note = "hihat_open"%string)))
         /\ (note = 45 ->
             name = "tom_low"%string
             /\ drum_type e note = "tom_mid"%string)).
Proof.
  intros e.
  assert (Hmap : _note_map e = _note_map (__init__ synth rate))
    by apply run_note_map.
  split.
  - rewrite <- elem_of_dom, Hmap.
    cbn [__init__ _note_map note_map_items foldl fst snd].
    unfold note_to_drum, note_to_drum_items. cbn [foldl fst snd].
    rewrite !dom_insert, !dom_empty. set_solver.
  - assert (Hall : map_Forall
                     (fun k v =>
                        (k <> 45 ->
                         drum_type (__init__ synth rate) k = v.1
                         \/ (v.1 = "hihat"%string
                             /\ (drum_type (__init__ synth rate) k
                                 = "hihat_closed"%string
                                 \/ drum_type (__init__ synth rate) k
                                    = "hihat_open"%string)))
                        /\ (k = 45 ->
                            v.1 = "tom_low"%string
                            /\ drum_type (__init__ synth rate) k
                               = "tom_mid"%string))
                     note_to_drum).
    { unfold note_to_drum, note_to_drum_items. cbn [foldl fst snd].
      repeat (apply map_Forall_insert_2;
              [split; [intros Hk; first [ by left
                                        | right; split; [done |];
                                          first [by left | by right]
                                        | done ]
                      | intros Hk; first [done | discriminate Hk] ] |]).
      apply map_Forall_empty. }
    intros name piece Hlook. specialize (Hall note (name, piece) Hlook).
    unfold drum_type in *. rewrite Hmap. exact Hall.
Qed.

(** X19. For every note of [note_to_drum], the colour that
    [_animate_drum_hit] picks by the name of the piece, and gives the piece
    back when the animation ends, is the colour [_create_drum_kit] drew the
    piece with. *)
Theorem animation_restores_drawn_color (note : Z) (name : string)
    (piece : drum_object) :
  note_to_drum !! note = Some (name, piece) ->
  base_color name = drawn_color piece.
Proof.
  assert (Hall : map_Forall (fun _ v => base_color v.1 = drawn_color v.2)
                   note_to_drum).
  { unfold note_to_drum, note_to_drum_items. cbn [foldl fst snd].
    repeat (apply map_Forall_insert_2; [reflexivity |]).
    apply map_Forall_empty. }
  intros Hlook. exact (Hall note (name, piece) Hlook).
Qed.

End DisplayTables.

Section ScriptNotes.
Import Py MidiHandler AudioEngine Sender Script Main.

(** The callback is about a note of the engine's note map and, if it is a
    trigger, has a velocity in [1, 127]. *)
Local Abbreviation kit_call := (fun c : Call =>
  match c with
  | note_on_cb note velocity => note ∈ mapped_notes /\ 1 <= velocity <= 127
  | note_off_cb note => note ∈ mapped_notes
  | control_change_cb _ _ => False
  end).

Local Ltac kit_calls :=
  match goal with
  | |- Forall _ ?l => let l' := eval vm_compute in l in change l with l'
  end;
  repeat (apply Forall_cons; split;
          [first [ split; [unfold mapped_notes; repeat constructor | lia]
                 | unfold mapped_notes; repeat constructor ] |]);
  apply Forall_nil_2.

Lemma caravan_bar_kit (p : positive) (bar_count : Z) :
  Forall kit_call
    (concat (scan false
               <$> sent (Caravan.play_bar (60 / inject_Z (Z.pos p) / 2)
                           (60 / inject_Z (Z.pos p) / 4) bar_count).1)).
Proof.
  unfold Caravan.play_bar.
  destruct (bar_count mod 8 =? 0); [| destruct (bar_count mod 2 =? 1)];
    kit_calls.
Qed.

Lemma fake_midi_pass_kit (interval : Q) :
  Qle_bool 0 interval = true ->
  Forall kit_call
    (concat (scan false
               <$> sent (for_each (FakeMidi.play_drum interval)
                           FakeMidi.drum_pattern).1)).
Proof.
  intros Hpause.
  unfold for_each, FakeMidi.drum_pattern, FakeMidi.play_drum. cbn [foldr].
  unfold time_sleep. rewrite Hpause. kit_calls.
Qed.

Lemma kit_calls_concat {A : Type} (f : A -> list Event) (l : list A) :
  (forall x, Forall kit_call (concat (scan false <$> sent (f x)))) ->
  Forall kit_call (concat (scan false <$> sent (concat (f <$> l)))).
Proof.
  intros Hf. induction l as [| x l IH]; [constructor |].
  cbn [fmap list_fmap concat].
  rewrite sent_app, fmap_app, concat_app. apply Forall_app. by split.
Qed.

(** X20. Both scripts play the kit of the engine only: of the datagrams of
    any number of bars of the Caravan pattern at a positive tempo, and of
    any number of passes of [run] with a pause from 0 to [2 ^ 32] seconds
    (tempo and pause as the models of the scripts take them), every
    callback of a handler without [mido] is about one of the seventeen
    notes of the engine's note map, no trigger has velocity 0 or more than
    127, and none is a control change. So no trigger of theirs falls back to
    the default snare or arrives as a release. *)
Theorem scripts_play_mapped_notes :
  (forall (tempo_bpm : Z) (bars : nat),
      0 < tempo_bpm < 2 ^ 1023 ->
      exists calls,
        on_packets None
          (sent (Caravan.play_caravan_pattern tempo_bpm bars).1)
        = Some calls
        /\ Forall (fun c : Call =>
                     match c with
                     | note_on_cb note velocity =>
                         note ∈ mapped_notes /\ 1 <= velocity <= 127
                     | note_off_cb note => note ∈ mapped_notes
                     | control_change_cb _ _ => False
                     end) calls)
  /\ (forall (interval : Q) (passes : nat),
         (0 <= interval <= 2 ^ 32)%Q ->
         exists calls,
           on_packets None (sent (FakeMidi.run interval passes).1)
           = Some calls
           /\ Forall (fun c : Call =>
                        match c with
                        | note_on_cb note velocity =>
                            note ∈ mapped_notes /\ 1 <= velocity <= 127
                        | note_off_cb note => note ∈ mapped_notes
                        | control_change_cb _ _ => False
                        end) calls).
Proof.
  split.
  - intros tempo_bpm bars [Htempo _].
    destruct tempo_bpm as [| p | p]; [done | | done].
    eexists. split; [apply on_packets_scan |].
    unfold Caravan.play_caravan_pattern. cbn [Z.eqb]. cbn zeta.
    destruct (for_each_ok
                (Caravan.play_bar (60 / inject_Z (Z.pos p) / 2)
                   (60 / inject_Z (Z.pos p) / 4))
                (seqZ 1 (Z.of_nat bars))) as [_ ->].
    { apply Forall_forall. intros k _. apply (caravan_bar p k). }
    apply (kit_calls_concat
             (fun k => (Caravan.play_bar (60 / inject_Z (Z.pos p) / 2)
                          (60 / inject_Z (Z.pos p) / 4) k).1)).
    intros k. apply caravan_bar_kit.
  - intros interval passes [Hpause % Qle_bool_iff _].
    eexists. split; [apply on_packets_scan |].
    unfold FakeMidi.run.
    destruct (for_each_ok
                (fun _ : nat =>
                   for_each (FakeMidi.play_drum interval)
                     FakeMidi.drum_pattern)
                (seq 0 passes)) as [_ ->].
    { apply Forall_forall. intros k _.
      apply (fake_midi_pass interval Hpause). }
    apply (kit_calls_concat
             (fun _ : nat =>
                (for_each (FakeMidi.play_drum interval)
                   FakeMidi.drum_pattern).1)).
    intros _. by apply fake_midi_pass_kit.
Qed.

End ScriptNotes.

Section FurtherWitnesses.
Import Py MidiHandler AudioEngine Sender Script Main UI.

Lemma same_drum_type_shares_gain_witness :
  volume <$> (_drum_samples
                (run [NoteOn 35 100 (Some 0%nat); NoteOn 36 64 None]
                   (run [] (__init__ example_synthesis 44100)))
                !! drum_type (run [] (__init__ example_synthesis 44100)) 35)
  = Some (64 # 128).
Proof.
  apply (same_drum_type_shares_gain example_synthesis 44100 [] 35 36 100 64
           (Some 0%nat) None); [reflexivity | lia].
Defined.

Lemma caravan_bad_tempo_witness :
  Caravan.play_caravan_pattern (-120) 1
  = ([sendto [x90; x24; x6e]; sendto [x90; x2a; x55]], Some ValueError).
Proof.
  destruct (caravan_bad_tempo 0) as [_ Hneg]. apply Hneg.
  split; reflexivity.
Defined.

Lemma fake_midi_releases_its_notes_witness :
  (FakeMidi.run (1 # 4) 2).2 = None
  /\ FakeMidi.run (-1 # 4) 1 = ([sendto [x90; x24; x64]], Some ValueError).
Proof.
  split.
  - destruct (fake_midi_releases_its_notes (1 # 4) 2 []
                (__init__ example_synthesis 44100)) as [Hok _].
    destruct Hok as [Hdone _]; [split; by vm_compute | exact Hdone].
  - destruct (fake_midi_releases_its_notes (-1 # 4) 0 []
                (__init__ example_synthesis 44100)) as [_ Hneg].
    apply Hneg. split; by vm_compute.
Defined.

Lemma display_and_engine_notes_witness :
  drum_type (run [] (__init__ example_synthesis 44100)) 46
  = "hihat_open"%string
  /\ note_to_drum !! 46 = Some ("hihat"%string, hihat_id).
Proof.
  destruct (display_and_engine_notes example_synthesis 44100 [] 46)
    as [_ Hpiece].
  destruct (Hpiece "hihat"%string hihat_id eq_refl) as [Hsame _].
  destruct (Hsame ltac:(lia)) as [Hname | [_ [Hclosed | Hopen]]];
    [discriminate Hname | discriminate Hclosed | by split].
Defined.

Lemma animation_restores_drawn_color_witness :
  base_color "tom_high" = drawn_color tom_high_id.
Proof.
  apply (animation_restores_drawn_color 50). reflexivity.
Defined.

Lemma scripts_play_mapped_notes_witness :
  exists calls,
    on_packets None (sent (Caravan.play_caravan_pattern 180 8).1)
    = Some calls
    /\ Forall (fun c : Call =>
                 match c with
                 | note_on_cb note velocity =>
                     note ∈ mapped_notes /\ 1 <= velocity <= 127
                 | note_off_cb note => note ∈ mapped_notes
                 | control_change_cb _ _ => False
                 end) calls.
Proof.
  destruct scripts_play_mapped_notes as [Hcaravan _].
  apply (Hcaravan 180 8%nat). split; reflexivity.
Defined.

End FurtherWitnesses.
